(** * LiberTEM: the dask job executors and the thread-count scopes

    A shallow embedding of [src/libertem/executor/dask.py] and of
    [src/libertem/utils/threading.py], and the properties of the
    executors' [run_job], [cancel_job], [map_partitions] and [close], and
    of the [set_num_threads] scope.

    Python objects are records, exceptions are values of [exn], code that
    mutates state or raises lives in a state-and-error monad, and a
    generator is a state machine that is resumed by [next]. *)

From stdpp Require Import gmap strings list.

(** ** Exceptions and the state-and-error monad *)

(** The exceptions the two modules raise or let through.  All of them are
    subclasses of Python's [Exception].  [ValueError "no workers found for
    task"] is what the dispatcher raises for a task without eligible
    workers, [JobCancelledError] is the cancellation signal of the
    asynchronous [run_job], [TypeError] is what a call raises that is
    given one keyword argument twice. *)
Inductive exn : Type :=
  | ValueError (msg : string)
  | JobCancelledError
  | KeyError
  | AttributeError (msg : string)
  | TimeoutError
  | TaskFailure (msg : string)
  | TypeError.

Global Instance exn_eq_dec : EqDecision exn.
Proof. solve_decision. Defined.

Inductive res (A : Type) : Type :=
  | Ok (a : A)
  | Raise (e : exn).
Arguments Ok {A} a.
Arguments Raise {A} e.

Definition is_ok {A} (r : res A) : bool :=
  match r with Ok _ => true | Raise _ => false end.

(** A computation over a mutable state [S] that returns or raises. *)
Definition M (S A : Type) : Type := S -> S * res A.

Definition ret {S A} (a : A) : M S A := fun s => (s, Ok a).
Definition raise {S A} (e : exn) : M S A := fun s => (s, Raise e).
Definition bind {S A B} (m : M S A) (k : A -> M S B) : M S B :=
  fun s => match m s with
           | (s', Ok a) => k a s'
           | (s', Raise e) => (s', Raise e)
           end.
Definition get {S} : M S S := fun s => (s, Ok s).
Definition modify {S} (f : S -> S) : M S unit := fun s => (f s, Ok tt).

Declare Scope py_scope.
Delimit Scope py_scope with py.
Notation "x <- m ;; k" := (bind m (fun x => k))
  (at level 100, m at next level, right associativity) : py_scope.
Notation "m ;;; k" := (bind m (fun _ => k))
  (at level 100, right associativity) : py_scope.

(** [try: body finally: fin].  The [finally] block runs on both exits; an
    exception of the block itself replaces the one in flight. *)
Definition try_finally {S A} (body : M S A) (fin : M S unit) : M S A :=
  fun s => match body s with
           | (s1, r) => match fin s1 with
                        | (s2, Ok _) => (s2, r)
                        | (s2, Raise e) => (s2, Raise e)
                        end
           end.

(** [try: body except cls: handler], where [catches e] says whether [e]
    is an instance of [cls]. *)
Definition try_except {S A} (body : M S A) (catches : exn -> bool)
    (handler : exn -> M S A) : M S A :=
  fun s => match body s with
           | (s1, Ok a) => (s1, Ok a)
           | (s1, Raise e) => if catches e then handler e s1 else (s1, Raise e)
           end.

(** ** Tasks, jobs, partitions *)

Definition Worker : Type := string.

(** What a task hands back.  [VCancelledError k] is the cancellation
    object that the completion stream puts in the result position of a
    cancelled future [k]; it is why the asynchronous [run_job] asks
    [future.cancelled()] before it yields. *)
Inductive value : Type :=
  | VResult (z : Z)
  | VCancelledError (key : nat).

Global Instance value_eq_dec : EqDecision value.
Proof. solve_decision. Defined.

(** [task.get_locations()] and [partition.get_locations()]: [None], or a
    sequence of worker identities. *)
Class Located (A : Type) : Type := get_locations : A -> option (list Worker).

(** A task is a callable; [task_call] is what calling it on a worker
    gives. *)
Record Task : Type := mkTask {
    task_name : nat;
    task_locations : option (list Worker);
    task_call : res value
  }.
Global Instance Task_located : Located Task := task_locations.

(** A job is used as a dictionary key, by object identity: [job_id]. *)
Record Job : Type := mkJob {
    job_id : positive;
    get_tasks : list Task
  }.

Record Partition : Type := mkPartition {
    partition_name : nat;
    partition_locations : option (list Worker)
  }.
Global Instance Partition_located : Located Partition := partition_locations.

Record Dataset : Type := mkDataset {
    get_partitions : list Partition
  }.

Definition kwargs : Type := list (string * value).

(** ** The worker pool behind the dask client *)

Definition Future : Type := nat.

(** What [client.submit] is given: a task, or
    [functools.partial(fn, partition=partition, **fn_kwargs)]. *)
Inductive callable : Type :=
  | TaskCall (task : Task)
  | PartialCall (fn : Partition -> kwargs -> res value)
      (partition : Partition) (fn_kwargs : kwargs).

Definition call (c : callable) : res value :=
  match c with
  | TaskCall task => task_call task
  | PartialCall fn partition fn_kwargs => fn partition fn_kwargs
  end.

Record Submission : Type := mkSubmission {
    sub_callable : callable;
    sub_workers : option (list Worker)
  }.

Inductive Status : Type :=
  | Finished (v : value)
  | Errored (e : exn)
  | Cancelled.

Global Instance Status_eq_dec : EqDecision Status.
Proof. solve_decision. Defined.

Inductive level : Type := ERROR | EXCEPTION.

(** The state outside the executor objects: the pool's submissions in
    submission order (a future is the index of its submission), its
    completion log in completion order, the cancellation requests it was
    sent, whether the connection and the cluster were closed, and the
    records of the module's logger. *)
Record World : Type := mkWorld {
    submitted : list Submission;
    completed : list (Future * Status);
    cancel_requests : list (list Future);
    client_closed : bool;
    cluster_closed : bool;
    log_records : list (level * string)
  }.

Definition set_submitted (f : list Submission -> list Submission) (w : World) : World :=
  mkWorld (f (submitted w)) (completed w) (cancel_requests w)
          (client_closed w) (cluster_closed w) (log_records w).
Definition set_completed (f : list (Future * Status) -> list (Future * Status))
    (w : World) : World :=
  mkWorld (submitted w) (f (completed w)) (cancel_requests w)
          (client_closed w) (cluster_closed w) (log_records w).
Definition set_cancel_requests (f : list (list Future) -> list (list Future))
    (w : World) : World :=
  mkWorld (submitted w) (completed w) (f (cancel_requests w))
          (client_closed w) (cluster_closed w) (log_records w).
Definition set_client_closed (b : bool) (w : World) : World :=
  mkWorld (submitted w) (completed w) (cancel_requests w)
          b (cluster_closed w) (log_records w).
Definition set_cluster_closed (b : bool) (w : World) : World :=
  mkWorld (submitted w) (completed w) (cancel_requests w)
          (client_closed w) b (log_records w).
Definition set_log_records (f : list (level * string) -> list (level * string))
    (w : World) : World :=
  mkWorld (submitted w) (completed w) (cancel_requests w)
          (client_closed w) (cluster_closed w) (f (log_records w)).

(** The cluster and the client objects.  What their [close] raises, if
    anything, is decided by the library and the network: it is a field of
    the object here. *)
Record Cluster : Type := mkCluster {
    cluster_close_raises : option exn
  }.

Record Client : Type := mkClient {
    cluster : option Cluster;
    client_close_raises : option exn
  }.

Definition none_has_no_attribute (attr : string) : exn :=
  AttributeError ("'NoneType' object has no attribute '" +:+ attr +:+ "'").

(** [client.submit(fn, workers=workers)]: one more submission, the new
    future is returned at once.  On [None] the attribute lookup fails. *)
Definition client_submit (client : option Client) (fn : callable)
    (workers : option (list Worker)) : M World Future :=
  match client with
  | None => raise (none_has_no_attribute "submit"%string)
  | Some _ =>
      (w <- get ;;
       modify (set_submitted (fun l => l ++ [mkSubmission fn workers])) ;;;
       ret (length (submitted w)))%py
  end.

(** [client.cancel(futures)]: the request goes to the pool; when it takes
    effect is the pool's business ([EvCancel] below). *)
Definition client_cancel (client : option Client) (futures : list Future)
    : M World unit :=
  match client with
  | None => raise (none_has_no_attribute "cancel"%string)
  | Some _ => modify (set_cancel_requests (fun l => l ++ [futures]))
  end.

(** [client.close()] and [cluster.close(timeout=1)]. *)
Definition client_close (client : Client) : M World unit :=
  match client_close_raises client with
  | Some e => raise e
  | None => modify (set_client_closed true)
  end.

Definition cluster_close (c : Cluster) : M World unit :=
  match cluster_close_raises c with
  | Some e => raise e
  | None => modify (set_cluster_closed true)
  end.

Definition log_error (msg : string) : M World unit :=
  modify (set_log_records (fun l => l ++ [(ERROR, msg)])).
Definition log_exception (msg : string) : M World unit :=
  modify (set_log_records (fun l => l ++ [(EXCEPTION, msg)])).

(** What the pool does on its own: a worker runs the callable of a pending
    future to its end, or a pending future is cancelled.  Either way the
    future enters the completion log, once.  Which worker runs a future is
    not recorded: the events range over more schedules than the [workers]
    of the submissions allow. *)
Inductive event : Type :=
  | EvFinish (k : Future)
  | EvCancel (k : Future).

Definition is_done (w : World) (k : Future) : bool :=
  bool_decide (k ∈ (completed w).*1).

Definition status_of_call (r : res value) : Status :=
  match r with
  | Ok v => Finished v
  | Raise e => Errored e
  end.

Definition complete (k : Future) (st : Status) (w : World) : World :=
  if is_done w k then w else set_completed (fun l => l ++ [(k, st)]) w.

Definition pool_event (ev : event) (w : World) : World :=
  match ev with
  | EvFinish k =>
      match submitted w !! k with
      | Some s => complete k (status_of_call (call (sub_callable s))) w
      | None => w
      end
  | EvCancel k =>
      match submitted w !! k with
      | Some _ => complete k Cancelled w
      | None => w
      end
  end.

(** ** [dd.as_completed(futures, with_results=True)] *)

(** The futures of the stream that are done, in completion order. *)
Definition completion_order (w : World) (futures : list Future)
    : list (Future * Status) :=
  filter (fun d => d.1 ∈ futures) (completed w).

(** The iterator: its futures and how many it has handed out. *)
Record as_completed : Type := mkAsCompleted {
    ac_futures : list Future;
    ac_taken : nat
  }.

Inductive stream_step : Type :=
  | SNext (future : Future) (result : value)
  | SStop
  | SRaise (e : exn)
  | SWait.

(** One [next] on the iterator, as dask's [as_completed] does it with
    [with_results=True]: it stops when every future was handed out, waits
    when the next one is not done yet, re-raises the exception of a failed
    callable, and hands a cancelled future over like a finished one, with
    the cancellation object as its result. *)
Definition as_completed_next (w : World) (ac : as_completed) : stream_step :=
  if decide (length (ac_futures ac) <= ac_taken ac) then SStop
  else match completion_order w (ac_futures ac) !! ac_taken ac with
       | None => SWait
       | Some (k, Finished v) => SNext k v
       | Some (k, Errored e) => SRaise e
       | Some (k, Cancelled) => SNext k (VCancelledError k)
       end.

Definition advance (ac : as_completed) : as_completed :=
  mkAsCompleted (ac_futures ac) (S (ac_taken ac)).

(** [future.cancelled()] *)
Definition future_cancelled (w : World) (k : Future) : bool :=
  bool_decide ((k, Cancelled) ∈ completed w).

(** ** Generators *)

(** A generator object made by calling a generator function with [args]:
    not started yet, suspended at the [yield] inside the loop over the
    completion stream [ac], or finished. *)
Inductive generator (A : Type) : Type :=
  | GenCreated (args : A)
  | GenSuspended (args : A) (ac : as_completed)
  | GenClosed.
Arguments GenCreated {A} args.
Arguments GenSuspended {A} args ac.
Arguments GenClosed {A}.

(** What one [next] on a generator gives its caller.  [Waiting]: the
    generator sits inside the completion stream (blocked, or suspended on
    its [await]) until the pool completes another future. *)
Inductive outcome : Type :=
  | Yield (v : value)
  | StopIteration
  | Raised (e : exn)
  | Waiting.

Global Instance outcome_eq_dec : EqDecision outcome.
Proof. solve_decision. Defined.

Definition yielded (o : outcome) : option value :=
  match o with Yield v => Some v | _ => None end.

Definition yields (os : list outcome) : list value := omap yielded os.

(** The consumer of a generator and the pool take turns. *)
Inductive action : Type :=
  | Env (ev : event)
  | Next.

(** ** [class CommonDaskMixin] *)

Definition no_workers (locations : option (list Worker)) : bool :=
  match locations with
  | Some l => Nat.eqb (length l) 0
  | None => false
  end.

Module CommonDaskMixin.

(** The loop of [_get_futures] over [job.get_tasks()]. *)
Fixpoint _get_futures_loop (client : option Client) (tasks : list Task)
    (futures : list Future) : M World (list Future) :=
  match tasks with
  | [] => ret futures
  | task :: tasks' =>
      let locations := get_locations task in
      if no_workers locations
      then raise (ValueError "no workers found for task")
      else (future <- client_submit client (TaskCall task) locations ;;
            _get_futures_loop client tasks' (futures ++ [future]))%py
  end.

Definition _get_futures (client : option Client) (job : Job)
    : M World (list Future) :=
  _get_futures_loop client (get_tasks job) [].

End CommonDaskMixin.

(** ** [class DaskJobExecutor] *)

Module DaskJobExecutor.
Import CommonDaskMixin.

Record t : Type := mk {
    is_local : bool;
    client : option Client
  }.

Definition run_job (self : t) (job : Job) : generator Job := GenCreated job.

(** The [for future, result in dd.as_completed(...)] loop of [run_job],
    up to its next [yield]. *)
Definition run_job_loop (job : Job) (ac : as_completed) (w : World)
    : World * generator Job * outcome :=
  match as_completed_next w ac with
  | SNext future result => (w, GenSuspended job (advance ac), Yield result)
  | SStop => (w, GenClosed, StopIteration)
  | SRaise e => (w, GenClosed, Raised e)
  | SWait => (w, GenSuspended job ac, Waiting)
  end.

Definition run_job_next (self : t) (g : generator Job) (w : World)
    : World * generator Job * outcome :=
  match g with
  | GenCreated job =>
      match _get_futures (client self) job w with
      | (w', Ok futures) => run_job_loop job (mkAsCompleted futures 0) w'
      | (w', Raise e) => (w', GenClosed, Raised e)
      end
  | GenSuspended job ac => run_job_loop job ac w
  | GenClosed => (w, GenClosed, StopIteration)
  end.

(** [functools.partial(fn, partition=partition, **fn_kwargs)]: the call
    passes [partition] by keyword and unpacks [fn_kwargs] beside it, so a
    key ['partition'] in [fn_kwargs] gives the keyword twice, which is a
    [TypeError] of the call itself. *)
Definition functools_partial (fn : Partition -> kwargs -> res value)
    (partition : Partition) (fn_kwargs : kwargs) : M World callable :=
  if bool_decide ("partition" ∈ fn_kwargs.*1)
  then raise TypeError
  else ret (PartialCall fn partition fn_kwargs).

(** The submission loop of [map_partitions]. *)
Fixpoint map_partitions_submit (client : option Client)
    (fn : Partition -> kwargs -> res value) (fn_kwargs : kwargs)
    (partitions : list Partition) (futures : list Future)
    : M World (list Future) :=
  match partitions with
  | [] => ret futures
  | partition :: partitions' =>
      (fn_bound <- functools_partial fn partition fn_kwargs ;;
       future <- client_submit client fn_bound (get_locations partition) ;;
       map_partitions_submit client fn fn_kwargs partitions'
         (futures ++ [future]))%py
  end.

Record map_partitions_args : Type := mk_args {
    dataset : Dataset;
    fn : Partition -> kwargs -> res value;
    fn_kwargs : option kwargs
  }.

Definition map_partitions (self : t) (dataset : Dataset)
    (fn : Partition -> kwargs -> res value) (fn_kwargs : option kwargs)
    : generator map_partitions_args :=
  GenCreated (mk_args dataset fn fn_kwargs).

Definition map_partitions_loop (args : map_partitions_args)
    (ac : as_completed) (w : World)
    : World * generator map_partitions_args * outcome :=
  match as_completed_next w ac with
  | SNext future result => (w, GenSuspended args (advance ac), Yield result)
  | SStop => (w, GenClosed, StopIteration)
  | SRaise e => (w, GenClosed, Raised e)
  | SWait => (w, GenSuspended args ac, Waiting)
  end.

Definition map_partitions_next (self : t)
    (g : generator map_partitions_args) (w : World)
    : World * generator map_partitions_args * outcome :=
  match g with
  | GenCreated args =>
      let fn_kwargs := match fn_kwargs args with
                       | None => []
                       | Some kw => kw
                       end in
      match map_partitions_submit (client self) (fn args) fn_kwargs
              (get_partitions (dataset args)) [] w with
      | (w', Ok futures) =>
          map_partitions_loop args (mkAsCompleted futures 0) w'
      | (w', Raise e) => (w', GenClosed, Raised e)
      end
  | GenSuspended args ac => map_partitions_loop args ac w
  | GenClosed => (w, GenClosed, StopIteration)
  end.

Definition is_TimeoutError (e : exn) : bool :=
  match e with TimeoutError => true | _ => false end.

Definition close (self : t) : M World unit :=
  ((if is_local self then
      match client self with
      | None => raise (none_has_no_attribute "cluster")
      | Some c =>
          match cluster c with
          | Some cl =>
              try_except (cluster_close cl) is_TimeoutError (fun _ => ret tt)
          | None => ret tt
          end
      end
    else ret tt) ;;;
   match client self with
   | None => raise (none_has_no_attribute "close")
   | Some c => client_close c
   end)%py.

(** A consumer iterating [run_job] while the pool goes on. *)
Record config : Type := mk_config {
    world : World;
    gen : generator Job;
    outs : list outcome
  }.

Definition step (self : t) (c : config) (a : action) : config :=
  match a with
  | Env ev => mk_config (pool_event ev (world c)) (gen c) (outs c)
  | Next =>
      match run_job_next self (gen c) (world c) with
      | (w', g', o) => mk_config w' g' (outs c ++ [o])
      end
  end.

Definition run (self : t) (script : list action) (c : config) : config :=
  foldl (step self) c script.

(** A consumer iterating [map_partitions] while the pool goes on. *)
Record mp_config : Type := mk_mp_config {
    mp_world : World;
    mp_gen : generator map_partitions_args;
    mp_outs : list outcome
  }.

Definition mp_step (self : t) (c : mp_config) (a : action) : mp_config :=
  match a with
  | Env ev => mk_mp_config (pool_event ev (mp_world c)) (mp_gen c) (mp_outs c)
  | Next =>
      match map_partitions_next self (mp_gen c) (mp_world c) with
      | (w', g', o) => mk_mp_config w' g' (mp_outs c ++ [o])
      end
  end.

Definition mp_run (self : t) (script : list action) (c : mp_config) : mp_config :=
  foldl (mp_step self) c script.

(** [connect(scheduler_uri)]: the executor gets the client
    [dd.Client(address=scheduler_uri)], which has no cluster of its own,
    and is not local.  What closing that client will raise is the
    library's business. *)
Definition connect (client_close_raises : option exn) : t :=
  mk false (Some (mkClient None client_close_raises)).

(** [make_local(cluster_kwargs, client_kwargs)]: the executor gets a
    client made on a fresh [dd.LocalCluster], and is local. *)
Definition make_local (cluster : Cluster) (client_close_raises : option exn) : t :=
  mk true (Some (mkClient (Some cluster) client_close_raises)).

End DaskJobExecutor.

(** ** [class AsyncDaskJobExecutor] *)

Module AsyncDaskJobExecutor.
Import CommonDaskMixin.

Record t : Type := mk {
    is_local : bool;
    client : option Client;
    _futures : gmap positive (list Future)
  }.

Definition set_futures (f : gmap positive (list Future) -> gmap positive (list Future))
    (self : t) : t :=
  mk (is_local self) (client self) (f (_futures self)).

Definition is_TimeoutError (e : exn) : bool :=
  match e with TimeoutError => true | _ => false end.

(** Every value of [exn] is an instance of [Exception]. *)
Definition is_Exception (e : exn) : bool := true.

Definition close (self : t) : M World unit :=
  try_except
    (match client self with
     | None => log_error "could not close dask executor, client is None"
     | Some c =>
         (client_close c ;;;
          if is_local self then
            try_except
              (match cluster c with
               | None => raise (none_has_no_attribute "close")
               | Some cl => cluster_close cl
               end)
              is_TimeoutError (fun _ => ret tt)
          else ret tt)%py
     end)
    is_Exception
    (fun _ => log_exception "could not close dask executor").

Definition run_job (self : t) (job : Job) : generator Job := GenCreated job.

(** The [async for] loop of [run_job] up to its next [yield], and the
    [del self._futures[job]] behind the loop. *)
Definition run_job_loop (self : t) (job : Job) (ac : as_completed) (w : World)
    : t * World * generator Job * outcome :=
  match as_completed_next w ac with
  | SNext future result =>
      if future_cancelled w future
      then (self, w, GenClosed, Raised JobCancelledError)
      else (self, w, GenSuspended job (advance ac), Yield result)
  | SStop =>
      match _futures self !! job_id job with
      | Some _ => (set_futures (delete (job_id job)) self, w,
                   GenClosed, StopIteration)
      | None => (self, w, GenClosed, Raised KeyError)
      end
  | SRaise e => (self, w, GenClosed, Raised e)
  | SWait => (self, w, GenSuspended job ac, Waiting)
  end.

Definition run_job_next (self : t) (g : generator Job) (w : World)
    : t * World * generator Job * outcome :=
  match g with
  | GenCreated job =>
      match _get_futures (client self) job w with
      | (w', Ok futures) =>
          let self' := set_futures (insert (job_id job) futures) self in
          run_job_loop self' job (mkAsCompleted futures 0) w'
      | (w', Raise e) => (self, w', GenClosed, Raised e)
      end
  | GenSuspended job ac => run_job_loop self job ac w
  | GenClosed => (self, w, GenClosed, StopIteration)
  end.

Definition cancel_job (self : t) (job : Job) : M World unit :=
  match _futures self !! job_id job with
  | Some futures => client_cancel (client self) futures
  | None => ret tt
  end.

(** A consumer iterating [run_job] while the pool goes on and
    [cancel_job] is called from elsewhere. *)
Inductive async_action : Type :=
  | Act (a : action)
  | CancelJob (job : Job).

Record config : Type := mk_config {
    self_ : t;
    world : World;
    gen : generator Job;
    outs : list outcome
  }.

Definition step (c : config) (a : async_action) : config :=
  match a with
  | Act (Env ev) =>
      mk_config (self_ c) (pool_event ev (world c)) (gen c) (outs c)
  | Act Next =>
      match run_job_next (self_ c) (gen c) (world c) with
      | (s', w', g', o) => mk_config s' w' g' (outs c ++ [o])
      end
  | CancelJob job =>
      mk_config (self_ c) (cancel_job (self_ c) job (world c)).1
                (gen c) (outs c)
  end.

Definition run (script : list async_action) (c : config) : config :=
  foldl step c script.

(** Two consumers, each iterating a generator of [run_job] on the same
    executor, while the pool goes on. *)
Inductive duo_action : Type :=
  | Pool (ev : event)
  | NextFirst
  | NextSecond.

Record duo : Type := mk_duo {
    duo_self : t;
    duo_world : World;
    gen_first : generator Job;
    gen_second : generator Job;
    outs_first : list outcome;
    outs_second : list outcome
  }.

Definition duo_step (d : duo) (a : duo_action) : duo :=
  match a with
  | Pool ev =>
      mk_duo (duo_self d) (pool_event ev (duo_world d))
             (gen_first d) (gen_second d) (outs_first d) (outs_second d)
  | NextFirst =>
      match run_job_next (duo_self d) (gen_first d) (duo_world d) with
      | (s', w', g', o) =>
          mk_duo s' w' g' (gen_second d) (outs_first d ++ [o]) (outs_second d)
      end
  | NextSecond =>
      match run_job_next (duo_self d) (gen_second d) (duo_world d) with
      | (s', w', g', o) =>
          mk_duo s' w' (gen_first d) g' (outs_first d) (outs_second d ++ [o])
      end
  end.

Definition duo_run (script : list duo_action) (d : duo) : duo :=
  foldl duo_step d script.

(** [connect(scheduler_uri)] and [make_local(...)], with the empty
    [_futures] of [__init__]. *)
Definition connect (client_close_raises : option exn) : t :=
  mk false (Some (mkClient None client_close_raises)) ∅.

Definition make_local (cluster : Cluster) (client_close_raises : option exn) : t :=
  mk true (Some (mkClient (Some cluster) client_close_raises)) ∅.

End AsyncDaskJobExecutor.

(** ** [libertem/utils/threading.py] *)

Module threading.

(** The thread counts the scopes touch: the limit of the native thread
    pools under [threadpoolctl], [pyfftw.config.NUM_THREADS], and
    numba's thread count. *)
Record Threads : Type := mk {
    threadpool_limit : Z;
    pyfftw_NUM_THREADS : Z;
    numba_num_threads : Z
  }.

Definition set_threadpool_limit (n : Z) (s : Threads) : Threads :=
  mk n (pyfftw_NUM_THREADS s) (numba_num_threads s).
Definition set_pyfftw_NUM_THREADS (n : Z) (s : Threads) : Threads :=
  mk (threadpool_limit s) n (numba_num_threads s).
Definition set_numba_num_threads (n : Z) (s : Threads) : Threads :=
  mk (threadpool_limit s) (pyfftw_NUM_THREADS s) n.

Section WithModules.

(** Whether [import pyfftw] worked when the module was loaded, and the
    number of threads numba was launched with. *)
Variable pyfftw : bool.
Variable NUMBA_NUM_THREADS : Z.

Definition numba_get_num_threads : M Threads Z :=
  fun s => (s, Ok (numba_num_threads s)).

(** [numba.set_num_threads(n)] refuses a count outside
    [1 .. NUMBA_NUM_THREADS]. *)
Definition numba_set_num_threads (n : Z) : M Threads unit :=
  if decide (1 <= n <= NUMBA_NUM_THREADS)%Z
  then modify (set_numba_num_threads n)
  else raise (ValueError "The number of threads must be between 1 and NUMBA_NUM_THREADS").

(** [with threadpoolctl.threadpool_limits(n): body]: the limit is set
    when the object is made and put back by its [__exit__]. *)
Definition threadpool_limits {A} (n : Z) (body : M Threads A) : M Threads A :=
  (s <- get ;;
   modify (set_threadpool_limit n) ;;;
   try_finally body (modify (set_threadpool_limit (threadpool_limit s))))%py.

(** [with set_fftw_threads(n): body]; the [yield] of the context
    manager is where [body] runs. *)
Definition set_fftw_threads {A} (n : Z) (body : M Threads A) : M Threads A :=
  if pyfftw then
    (s <- get ;;
     let pyfftw_threads := pyfftw_NUM_THREADS s in
     try_finally
       (modify (set_pyfftw_NUM_THREADS n) ;;; body)
       (modify (set_pyfftw_NUM_THREADS pyfftw_threads)))%py
  else body.

(** [with set_numba_threads(n): body] *)
Definition set_numba_threads {A} (n : Z) (body : M Threads A) : M Threads A :=
  (numba_threads <- numba_get_num_threads ;;
   try_finally
     (numba_set_num_threads n ;;; body)
     (numba_set_num_threads numba_threads))%py.

(** [with set_num_threads(n): body] *)
Definition set_num_threads {A} (n : Z) (body : M Threads A) : M Threads A :=
  threadpool_limits n (set_fftw_threads n (set_numba_threads n body)).

(** The state [body] starts in. *)
Definition entered (n : Z) (s : Threads) : Threads :=
  mk n (if pyfftw then n else pyfftw_NUM_THREADS s) n.

End WithModules.

End threading.

(** ** [libertem/udf/holography.py] *)

Module holography.

(** What the functions of the module raise. *)
Inductive error : Type :=
  | UnboundLocalError (name : string)
  | NumpyError (msg : string)
  | ZeroDivisionError.

Inductive hres (A : Type) : Type :=
  | Returns (a : A)
  | Raises (e : error).
Arguments Returns {A} a.
Arguments Raises {A} e.

Definition hbind {A B} (m : hres A) (k : A -> hres B) : hres B :=
  match m with
  | Returns a => k a
  | Raises e => Raises e
  end.

(** *** The slice of [get_task_data] *)

(** [a / b] on two integers is a float.  [get_task_data] only halves
    sizes and adds or subtracts two such halves: for sizes below [2^52]
    these floats are exact, and rationals stand for them. *)
Definition true_div (a b : Z) : QArith_base.Q :=
  QArith_base.Qdiv (QArith_base.inject_Z a) (QArith_base.inject_Z b).

(** [int(x)] on a float rounds toward zero. *)
Definition int (x : QArith_base.Q) : Z :=
  Z.quot (QArith_base.Qnum x) (Z.pos (QArith_base.Qden x)).

(** [1. / n] raises for [n = 0]; its value, a float, is not modelled. *)
Definition reciprocal (n : Z) : hres unit :=
  if (n =? 0)%Z then Raises ZeroDivisionError else Returns tt.

(** The ['slice'] entry of the dictionary that [get_task_data] returns,
    [(slice(y_min, y_max), slice(x_min, x_max))], from
    [self.meta.partition_shape.sig] and [self.params.out_shape], two
    shapes, whose entries are sizes.  The function first computes
    [f_sampling = (1. / oy, 1. / ox)], which raises for an output shape
    with a zero.  (The ['aperture'] entry is an array of floats and is
    not modelled.) *)
Definition slice_fft (sig out_shape : N * N) : hres ((Z * Z) * (Z * Z)) :=
  let '(sy, sx) := (Z.of_N sig.1, Z.of_N sig.2) in
  let '(oy, ox) := (Z.of_N out_shape.1, Z.of_N out_shape.2) in
  hbind (reciprocal oy) (fun _ =>
  hbind (reciprocal ox) (fun _ =>
  let y_min := int (QArith_base.Qminus (true_div sy 2) (true_div oy 2)) in
  let y_max := int (QArith_base.Qplus (true_div sy 2) (true_div oy 2)) in
  let x_min := int (QArith_base.Qminus (true_div sx 2) (true_div ox 2)) in
  let x_max := int (QArith_base.Qplus (true_div sx 2) (true_div oy 2)) in
  Returns ((y_min, y_max), (x_min, x_max)))).

(** How many items [a[start:stop]] selects along an axis of length [n],
    as Python's [slice.indices] has it: a negative bound counts from the
    end, and both bounds are clipped to the axis. *)
Definition clip_index (n i : Z) : Z :=
  if (i <? 0)%Z then Z.max (i + n) 0 else Z.min i n.

Definition slice_len (n : Z) (s : Z * Z) : Z :=
  Z.max 0 (clip_index n s.2 - clip_index n s.1).

(** *** The phase ramp *)

(** [np.arange(0, n, 1)] *)
Definition arange (n : nat) : list Z := Z.of_nat <$> seq 0 n.

(** [np.meshgrid(a, b)] with its default indexing: two arrays of
    [len(b)] rows and [len(a)] columns, the first with [a] in every row,
    the second with [b] in every column. *)
Definition meshgrid (a b : list Z) : list (list Z) * list (list Z) :=
  ((fun _ => a) <$> b, (fun bi => (fun _ => bi) <$> a) <$> b).

Section WithFloats.

(** The floats and their arithmetic, and what numpy computes on images,
    are taken as they come: [mul r i] is [r * i] for a float and an
    integer, [mean_gradient img axis] is
    [np.mean(np.gradient(img, axis=axis))], which may raise, and
    [as_image size] is the tuple [size] passed where an image is
    expected. *)
Variable F : Type.
Variable zero : F.
Variable mul : F -> Z -> F.
Variable add : F -> F -> F.
Variable Img : Type.
Variable mean_gradient : Img -> nat -> hres F.
Variable as_image : nat * nat -> Img.

(** [np.zeros(size)] *)
Definition zeros (size : nat * nat) : list (list F) :=
  replicate size.1 (replicate size.2 zero).

(** [r * a] and [a + b] on arrays. *)
Definition scale (r : F) (a : list (list Z)) : list (list F) :=
  (fun row : list Z => mul r <$> row) <$> a.

Definition array_add (a b : list (list F)) : list (list F) :=
  zip_with (zip_with add) a b.

(** [phase_ramp_finding(img, order)]: for an order other than 1 the
    local [ramp] is never assigned. *)
Definition phase_ramp_finding (img : Img) (order : Z) : hres (F * F) :=
  if (order =? 1)%Z then
    hbind (mean_gradient img 0) (fun ramp_x =>
    hbind (mean_gradient img 1) (fun ramp_y =>
    Returns (ramp_y, ramp_x)))
  else Raises (UnboundLocalError "ramp").

(** [phase_ramp_removal(size, order, ramp)].  The locals [ramp_x] and
    [ramp_y] are assigned only when a ramp is passed in. *)
Definition phase_ramp_removal (size : nat * nat) (order : Z)
    (ramp : option (F * F)) : hres (list (list F)) :=
  let img := zeros size in
  hbind
    (match ramp with
     | None =>
         hbind (phase_ramp_finding (as_image size) 1) (fun _ => Returns None)
     | Some (ramp_y, ramp_x) => Returns (Some (ramp_y, ramp_x))
     end)
    (fun bound =>
       let yy := arange size.1 in
       let xx := arange size.2 in
       let '(y, x) := meshgrid yy xx in
       if (order =? 1)%Z then
         match bound with
         | Some (ramp_y, ramp_x) =>
             Returns (array_add (scale ramp_x x) (scale ramp_y y))
         | None => Raises (UnboundLocalError "ramp_x")
         end
       else Returns img).

End WithFloats.

End holography.

(** * Vocabulary of the properties *)

(** ** Submissions and futures *)

(** How [_get_futures] submits a task, and [map_partitions] a
    partition. *)
Definition task_submission (task : Task) : Submission :=
  mkSubmission (TaskCall task) (get_locations task).

Definition partition_submission (fn : Partition -> kwargs -> res value)
    (fn_kwargs : kwargs) (partition : Partition) : Submission :=
  mkSubmission (PartialCall fn partition fn_kwargs) (get_locations partition).

(** The world after the pool took the submissions [subs]. *)
Definition submit_all (subs : list Submission) (w : World) : World :=
  set_submitted (fun l => l ++ subs) w.

(** The futures of [n] submissions made in world [w]. *)
Definition new_futures (w : World) (n : nat) : list Future :=
  seq (length (submitted w)) n.

Definition has_workers (task : Task) : Prop :=
  no_workers (get_locations task) = false.

(** Every future of the completion log was submitted, and is logged
    once. *)
Definition pool_wf (w : World) : Prop :=
  NoDup (completed w).*1
  /\ Forall (fun k => k < length (submitted w)) (completed w).*1.

(** A handle that was submitted and for which no cancellation exists:
    neither a cancelled status nor a cancellation request. *)
Definition orphaned (w : World) (k : Future) : bool :=
  bool_decide (k < length (submitted w))
  && negb (future_cancelled w k)
  && negb (bool_decide (k ∈ concat (cancel_requests w))).

Definition is_raised (o : outcome) : bool :=
  match o with Raised _ => true | _ => false end.

(** ** The thread-count scope *)

(** What the scope [with set_num_threads(n): body] hands back to its
    caller: the result or the exception of [body], or numba's refusal of
    [n], in which case [body] never ran. *)
Definition scope_result (pyfftw : bool) (NUMBA_NUM_THREADS : Z) {A} (n : Z)
    (body : M threading.Threads A) (s : threading.Threads) : res A :=
  if decide (1 <= n <= NUMBA_NUM_THREADS)%Z
  then (body (threading.entered pyfftw n s)).2
  else Raise (ValueError "The number of threads must be between 1 and NUMBA_NUM_THREADS").

(** ** The tracker of the asynchronous executor *)

(** The generator is a live generator of [run_job(job)]. *)
Definition live_on (job : Job) (g : generator Job) : Prop :=
  match g with
  | GenCreated j | GenSuspended j _ => j = job
  | GenClosed => False
  end.

(** How an iteration ended: its first outcome that is neither a result
    nor a wait, which is the outcome of the [next] that closed the
    generator. *)
Definition is_end (o : outcome) : bool :=
  match o with
  | Yield _ | Waiting => false
  | StopIteration | Raised _ => true
  end.

Fixpoint ending (os : list outcome) : option outcome :=
  match os with
  | [] => None
  | o :: os' => if is_end o then Some o else ending os'
  end.

(** A generator of [run_job(job)] that was started, with the outcomes
    its consumer has seen: suspended and not ended, or closed and ended. *)
Definition started_on (job : Job) (g : generator Job) (os : list outcome) : Prop :=
  match g with
  | GenCreated _ => False
  | GenSuspended j _ => j = job /\ ending os = None
  | GenClosed => is_Some (ending os)
  end.

(** The invariant of two consumers of [run_job(job)] on one executor. *)
Definition duo_inv (job : Job) (d : AsyncDaskJobExecutor.duo) : Prop :=
  started_on job (AsyncDaskJobExecutor.gen_first d) (AsyncDaskJobExecutor.outs_first d)
  /\ started_on job (AsyncDaskJobExecutor.gen_second d) (AsyncDaskJobExecutor.outs_second d)
  /\ (ending (AsyncDaskJobExecutor.outs_first d) = Some StopIteration
      \/ ending (AsyncDaskJobExecutor.outs_second d) = Some StopIteration ->
      AsyncDaskJobExecutor._futures (AsyncDaskJobExecutor.duo_self d) !! job_id job = None)
  /\ ~ (ending (AsyncDaskJobExecutor.outs_first d) = Some StopIteration
        /\ ending (AsyncDaskJobExecutor.outs_second d) = Some StopIteration).

Definition tracked (job : Job) (c : AsyncDaskJobExecutor.config) : Prop :=
  is_Some (AsyncDaskJobExecutor._futures (AsyncDaskJobExecutor.self_ c) !! job_id job).

Definition cancelled_seen (c : AsyncDaskJobExecutor.config) : Prop :=
  Raised JobCancelledError ∈ AsyncDaskJobExecutor.outs c.

(** The invariant of a consumer of the asynchronous [run_job(job)]. *)
Definition tracker_inv (job : Job) (c : AsyncDaskJobExecutor.config) : Prop :=
  match AsyncDaskJobExecutor.gen c with
  | GenCreated j => j = job /\ ~ cancelled_seen c
  | GenSuspended j _ => j = job /\ tracked job c /\ ~ cancelled_seen c
  | GenClosed => cancelled_seen c -> tracked job c
  end.

(** ** A job started in a world [w0] *)

(** The futures the tasks of the job get. *)
Definition job_futures (job : Job) (w0 : World) : list Future :=
  new_futures w0 (length (get_tasks job)).

Definition started (job : Job) (w0 : World) (w : World) : Prop :=
  submitted w = submitted w0 ++ (task_submission <$> get_tasks job).

(** What is logged for a future of the job is the value its task
    returned. *)
Definition result_logged (job : Job) (w0 : World) (d : Future * Status) : Prop :=
  d.1 ∈ job_futures job w0 ->
  exists t v, get_tasks job !! (d.1 - length (submitted w0)) = Some t
              /\ task_call t = Ok v /\ d.2 = Finished v.

(** The action cancels none of the futures of the job. *)
Definition spares_job (job : Job) (w0 : World) (a : action) : Prop :=
  forall k, a = Env (EvCancel k) -> k ∉ job_futures job w0.

(** The invariant of a consumer of the blocking [run_job(job)]. *)
Definition stream_inv (job : Job) (w0 : World) (c : DaskJobExecutor.config) : Prop :=
  let order := completion_order (DaskJobExecutor.world c) (job_futures job w0) in
  let ys := yields (DaskJobExecutor.outs c) in
  pool_wf (DaskJobExecutor.world c)
  /\ Forall (result_logged job w0) (completed (DaskJobExecutor.world c))
  /\ Forall (fun o => is_raised o = false) (DaskJobExecutor.outs c)
  /\ match DaskJobExecutor.gen c with
     | GenCreated j =>
         j = job /\ DaskJobExecutor.outs c = []
         /\ submitted (DaskJobExecutor.world c) = submitted w0
     | GenSuspended j ac =>
         j = job /\ started job w0 (DaskJobExecutor.world c)
         /\ ac_futures ac = job_futures job w0
         /\ ac_taken ac <= length order
         /\ length ys = ac_taken ac
         /\ Finished <$> ys = (take (ac_taken ac) order).*2
         /\ StopIteration ∉ DaskJobExecutor.outs c
     | GenClosed =>
         started job w0 (DaskJobExecutor.world c)
         /\ length order = length (get_tasks job)
         /\ length ys = length (get_tasks job)
         /\ Finished <$> ys = order.*2
         /\ StopIteration ∈ DaskJobExecutor.outs c
     end.

(** What the task behind future [k] of the job returns. *)
Definition result_of (job : Job) (w0 : World) (k : Future) : res value :=
  default (Raise KeyError)
    (task_call <$> get_tasks job !! (k - length (submitted w0))).

(** How many more [next] a consumer needs at most, once all futures of
    the job are done. *)
Definition nexts_left (job : Job) (c : DaskJobExecutor.config) : nat :=
  match DaskJobExecutor.gen c with
  | GenCreated _ => 1
  | GenSuspended _ ac => S (length (get_tasks job) - ac_taken ac)
  | GenClosed => 0
  end.

Definition all_done (job : Job) (w0 : World) (c : DaskJobExecutor.config) : Prop :=
  length (get_tasks job)
  <= length (completion_order (DaskJobExecutor.world c) (job_futures job w0)).

(** What the consumer of the asynchronous generator sees. *)
Definition blocking_view (c : AsyncDaskJobExecutor.config) : DaskJobExecutor.config :=
  DaskJobExecutor.mk_config (AsyncDaskJobExecutor.world c)
    (AsyncDaskJobExecutor.gen c) (AsyncDaskJobExecutor.outs c).

Definition tracked_while_suspended (cl : Client)
    (c : AsyncDaskJobExecutor.config) : Prop :=
  AsyncDaskJobExecutor.client (AsyncDaskJobExecutor.self_ c) = Some cl
  /\ match AsyncDaskJobExecutor.gen c with
     | GenSuspended j _ =>
         is_Some (AsyncDaskJobExecutor._futures (AsyncDaskJobExecutor.self_ c) !! job_id j)
     | _ => True
     end.

(** ** Vocabulary of the further properties *)

(** What the blocking [run_job] yields for an entry of the completion
    log; a failed callable yields nothing, its exception is raised. *)
Definition payload (d : Future * Status) : option value :=
  match d.2 with
  | Finished v => Some v
  | Cancelled => Some (VCancelledError d.1)
  | Errored _ => None
  end.

(** The invariant of a consumer of the blocking [run_job(job)] in any
    pool: what was yielded are the payloads of the first entries of the
    completion order of the job's futures. *)
Definition payload_inv (job : Job) (w0 : World) (c : DaskJobExecutor.config) : Prop :=
  let order := completion_order (DaskJobExecutor.world c) (job_futures job w0) in
  let ys := yields (DaskJobExecutor.outs c) in
  pool_wf (DaskJobExecutor.world c)
  /\ match DaskJobExecutor.gen c with
     | GenCreated j =>
         j = job /\ DaskJobExecutor.outs c = []
         /\ submitted (DaskJobExecutor.world c) = submitted w0
     | GenSuspended j ac =>
         ac_futures ac = job_futures job w0
         /\ length ys = ac_taken ac
         /\ ac_taken ac <= length order
         /\ Some <$> ys = payload <$> take (ac_taken ac) order
     | GenClosed =>
         length ys <= length order
         /\ Some <$> ys = payload <$> take (length ys) order
     end.

(** The same invariant for a consumer of [map_partitions] on a dataset,
    over the futures of its partitions. *)
Definition mp_payload_inv (ds : Dataset) (w0 : World)
    (c : DaskJobExecutor.mp_config) : Prop :=
  let futures := new_futures w0 (length (get_partitions ds)) in
  let order := completion_order (DaskJobExecutor.mp_world c) futures in
  let ys := yields (DaskJobExecutor.mp_outs c) in
  pool_wf (DaskJobExecutor.mp_world c)
  /\ match DaskJobExecutor.mp_gen c with
     | GenCreated args =>
         DaskJobExecutor.dataset args = ds /\ DaskJobExecutor.mp_outs c = []
         /\ submitted (DaskJobExecutor.mp_world c) = submitted w0
     | GenSuspended _ ac =>
         ac_futures ac = futures
         /\ length ys = ac_taken ac
         /\ ac_taken ac <= length order
         /\ Some <$> ys = payload <$> take (ac_taken ac) order
     | GenClosed =>
         length ys <= length order
         /\ Some <$> ys = payload <$> take (length ys) order
     end.

(** The invariant of a consumer of the asynchronous [run_job(job)] in any
    pool: what was yielded are the values of the first entries of the
    completion order of the job's futures, which all finished. *)
Definition finished_inv (job : Job) (w0 : World)
    (c : AsyncDaskJobExecutor.config) : Prop :=
  let order := completion_order (AsyncDaskJobExecutor.world c) (job_futures job w0) in
  let ys := yields (AsyncDaskJobExecutor.outs c) in
  pool_wf (AsyncDaskJobExecutor.world c)
  /\ match AsyncDaskJobExecutor.gen c with
     | GenCreated j =>
         j = job /\ AsyncDaskJobExecutor.outs c = []
         /\ submitted (AsyncDaskJobExecutor.world c) = submitted w0
     | GenSuspended _ ac =>
         ac_futures ac = job_futures job w0
         /\ length ys = ac_taken ac
         /\ ac_taken ac <= length order
         /\ Finished <$> ys = (take (ac_taken ac) order).*2
     | GenClosed =>
         length ys <= length order
         /\ Finished <$> ys = (take (length ys) order).*2
     end.

(** The invariant of a consumer of the asynchronous [run_job(job)] that
    was started in [w0] on an executor with client [cl0]: while
    the generator is suspended, and after it raised the cancellation
    error, the entry of the job holds the futures of the job. *)
Definition entry_inv (job : Job) (w0 : World) (cl0 : option Client)
    (c : AsyncDaskJobExecutor.config) : Prop :=
  let entry := AsyncDaskJobExecutor._futures (AsyncDaskJobExecutor.self_ c)
                 !! job_id job in
  AsyncDaskJobExecutor.client (AsyncDaskJobExecutor.self_ c) = cl0
  /\ match AsyncDaskJobExecutor.gen c with
     | GenCreated j =>
         j = job /\ submitted (AsyncDaskJobExecutor.world c) = submitted w0
         /\ ~ cancelled_seen c
     | GenSuspended j ac =>
         j = job /\ ac_futures ac = job_futures job w0
         /\ entry = Some (job_futures job w0) /\ ~ cancelled_seen c
     | GenClosed => cancelled_seen c -> entry = Some (job_futures job w0)
     end.

(** The job a generator of [run_job] belongs to, if it is live. *)
Definition gen_job (g : generator Job) : option Job :=
  match g with
  | GenCreated j | GenSuspended j _ => Some j
  | GenClosed => None
  end.

(** ** Sample objects *)

Definition client0 : Client := mkClient None None.
Definition world0 : World := mkWorld [] [] [] false false [].
Definition sync0 : DaskJobExecutor.t := DaskJobExecutor.mk false (Some client0).
Definition async0 : AsyncDaskJobExecutor.t :=
  AsyncDaskJobExecutor.mk false (Some client0) ∅.

Definition task_anywhere (i : nat) (z : Z) : Task := mkTask i None (Ok (VResult z)).
Definition task_nowhere (i : nat) : Task := mkTask i (Some []) (Ok (VResult 0)).

(** A job with one task. *)
Definition job_one : Job := mkJob 1 [task_anywhere 0 10].

(** A job whose second task declares an empty sequence of locations. *)
Definition job_nowhere : Job :=
  mkJob 2 [task_anywhere 0 10; task_nowhere 1; task_anywhere 2 12].

(** A job with three tasks that return their index and run anywhere. *)
Definition job_three : Job :=
  mkJob 3 [task_anywhere 0 0; task_anywhere 1 1; task_anywhere 2 2].

(** The tasks of [job_three] complete in the reverse of the submission
    order while the consumer iterates. *)
Definition reverse_completion : list action :=
  [Next; Env (EvFinish 2); Env (EvFinish 1); Next; Next; Next;
   Env (EvFinish 0); Next; Next].

(** The asynchronous executor that has run [job_one] until its only
    future was handed out. *)
Definition after_one_result : AsyncDaskJobExecutor.config :=
  AsyncDaskJobExecutor.run
    [AsyncDaskJobExecutor.Act Next;
     AsyncDaskJobExecutor.Act (Env (EvFinish 0));
     AsyncDaskJobExecutor.Act Next]
    (AsyncDaskJobExecutor.mk_config async0 world0
       (AsyncDaskJobExecutor.run_job async0 job_one) []).

(** The world after the only task of [job_one] was submitted and then
    cancelled. *)
Definition world_cancelled : World :=
  pool_event (EvCancel 0) (submit_all [task_submission (task_anywhere 0 10)] world0).

(** A dataset with a partition whose locations are an empty sequence. *)
Definition dataset_nowhere : Dataset :=
  mkDataset [mkPartition 0 None; mkPartition 1 (Some [])].

Definition fn_index (p : Partition) (kw : kwargs) : res value :=
  Ok (VResult (Z.of_nat (partition_name p))).

(** A body that sets the pyfftw and numba counts to 7 and then raises. *)
Definition clobbering_body : M threading.Threads unit :=
  fun s => (threading.mk (threading.threadpool_limit s) 7 7,
            Raise (TaskFailure "boom")).

(** Two runs of [job_one] with the futures 0 and 1: both tasks finish,
    then the first run is drained, then the second. *)
Definition drain_both : list AsyncDaskJobExecutor.duo_action :=
  [AsyncDaskJobExecutor.Pool (EvFinish 0); AsyncDaskJobExecutor.Pool (EvFinish 1);
   AsyncDaskJobExecutor.NextFirst; AsyncDaskJobExecutor.NextFirst;
   AsyncDaskJobExecutor.NextSecond; AsyncDaskJobExecutor.NextSecond].

(** * Properties *)

(** ** The thread-count scope *)

Section set_num_threads_scope.
Import threading.

Variable pyfftw : bool.
Variable NUMBA_NUM_THREADS : Z.

Lemma numba_restore_ok (s0 s1 : Threads) :
  (1 <= numba_num_threads s0 <= NUMBA_NUM_THREADS)%Z ->
  numba_set_num_threads NUMBA_NUM_THREADS (numba_num_threads s0) s1
    = (set_numba_num_threads (numba_num_threads s0) s1, Ok tt).
Proof.
  intros Hs. unfold numba_set_num_threads.
  destruct (decide _) as [_|Hbad]; [reflexivity | contradiction].
Qed.

Lemma set_numba_threads_spec {A} n (body : M Threads A) s :
  (1 <= numba_num_threads s <= NUMBA_NUM_THREADS)%Z ->
  set_numba_threads NUMBA_NUM_THREADS n body s =
    if decide (1 <= n <= NUMBA_NUM_THREADS)%Z
    then let out := body (set_numba_num_threads n s) in
         (set_numba_num_threads (numba_num_threads s) out.1, out.2)
    else (s, Raise (ValueError "The number of threads must be between 1 and NUMBA_NUM_THREADS")).
Proof.
  intros Hs. unfold set_numba_threads, bind, numba_get_num_threads, try_finally.
  unfold numba_set_num_threads at 1.
  destruct (decide (1 <= n <= NUMBA_NUM_THREADS)%Z) as [Hn|Hn]; simpl.
  - destruct (body _) as [s1 r]. simpl.
    rewrite (numba_restore_ok s s1 Hs). reflexivity.
  - rewrite (numba_restore_ok s s Hs). destruct s; reflexivity.
Qed.

End set_num_threads_scope.

(** C8.  For every thread count [n] and every body, the scope
    [with set_num_threads(n): body] leaves numba's thread count, and
    [pyfftw.config.NUM_THREADS] when pyfftw is there, at the values they
    had before the scope was entered, whatever [body] did to them and
    whether [body] returned or raised; the result or exception of [body]
    is passed on. *)
Theorem set_num_threads_restores (pyfftw : bool) (NUMBA_NUM_THREADS : Z) {A}
    (n : Z) (body : M threading.Threads A) (s : threading.Threads) :
  (1 <= threading.numba_num_threads s <= NUMBA_NUM_THREADS)%Z ->
  let out := threading.set_num_threads pyfftw NUMBA_NUM_THREADS n body s in
  threading.numba_num_threads out.1 = threading.numba_num_threads s
  /\ (pyfftw = true ->
      threading.pyfftw_NUM_THREADS out.1 = threading.pyfftw_NUM_THREADS s)
  /\ out.2 = scope_result pyfftw NUMBA_NUM_THREADS n body s.
Proof.
  intros Hs out. subst out.
  unfold threading.set_num_threads, threading.threadpool_limits,
    threading.set_fftw_threads, scope_result, threading.entered.
  destruct pyfftw; unfold bind, get, modify, try_finally; simpl.
  - rewrite set_numba_threads_spec by exact Hs.
    destruct (decide (1 <= n <= NUMBA_NUM_THREADS)%Z) as [Hn|Hn]; simpl.
    + destruct (body _) as [s1 r]. simpl. auto.
    + auto.
  - rewrite set_numba_threads_spec by exact Hs.
    destruct (decide (1 <= n <= NUMBA_NUM_THREADS)%Z) as [Hn|Hn]; simpl.
    + destruct (body _) as [s1 r]. simpl. split; [reflexivity|]. split; [discriminate|reflexivity].
    + split; [reflexivity|]. split; [discriminate|reflexivity].
Qed.

Lemma set_num_threads_restores_witness :
  let s := threading.mk 4 4 4 in
  let out := threading.set_num_threads true 8 2 clobbering_body s in
  threading.numba_num_threads out.1 = 4%Z
  /\ (true = true -> threading.pyfftw_NUM_THREADS out.1 = 4%Z)
  /\ out.2 = Raise (TaskFailure "boom").
Proof.
  apply (set_num_threads_restores true 8 2 clobbering_body (threading.mk 4 4 4)).
  simpl. lia.
Defined.

(** ** The dispatcher: [_get_futures] *)

Lemma submit_all_nil w : submit_all [] w = w.
Proof. destruct w. unfold submit_all, set_submitted. simpl. by rewrite app_nil_r. Qed.

Lemma submit_all_cons s subs w :
  submit_all subs (submit_all [s] w) = submit_all (s :: subs) w.
Proof.
  unfold submit_all, set_submitted. simpl. by rewrite <- app_assoc.
Qed.

Lemma no_workers_empty (locations : option (list Worker)) :
  no_workers locations = true <-> locations = Some [].
Proof.
  destruct locations as [[|x l]|]; simpl; split; intros H;
    try reflexivity; try discriminate.
Qed.

Section get_futures.
Import CommonDaskMixin.

Lemma get_futures_loop_ok c tasks : forall futures w,
  Forall has_workers tasks ->
  _get_futures_loop (Some c) tasks futures w
  = (submit_all (task_submission <$> tasks) w,
     Ok (futures ++ new_futures w (length tasks))).
Proof.
  induction tasks as [|task tasks IH]; intros futures w Hall; simpl.
  - rewrite submit_all_nil. unfold new_futures. simpl. by rewrite app_nil_r.
  - apply Forall_cons in Hall as [Ht Hall]. unfold has_workers in Ht.
    rewrite Ht. unfold bind, client_submit, get, modify, ret. simpl.
    rewrite IH by exact Hall.
    fold (submit_all [mkSubmission (TaskCall task) (get_locations task)] w).
    rewrite submit_all_cons. f_equal. f_equal.
    unfold new_futures, submit_all. simpl. rewrite length_app. simpl.
    rewrite <- app_assoc. simpl. do 3 f_equal. lia.
Qed.

Lemma get_futures_loop_fail c pre task post : forall futures w,
  Forall has_workers pre ->
  get_locations task = Some [] ->
  _get_futures_loop (Some c) (pre ++ task :: post) futures w
  = (submit_all (task_submission <$> pre) w,
     Raise (ValueError "no workers found for task")).
Proof.
  induction pre as [|t pre IH]; intros futures w Hall Hempty; simpl.
  - rewrite Hempty. simpl. by rewrite submit_all_nil.
  - apply Forall_cons in Hall as [Ht Hall]. unfold has_workers in Ht.
    rewrite Ht. unfold bind, client_submit, get, modify, ret. simpl.
    rewrite IH by assumption.
    fold (submit_all [mkSubmission (TaskCall t) (get_locations t)] w).
    by rewrite submit_all_cons.
Qed.

(** The first task without workers splits the task list. *)
Lemma first_without_workers (tasks : list Task) task :
  task ∈ tasks -> get_locations task = Some [] ->
  exists pre t post,
    tasks = pre ++ t :: post /\ Forall has_workers pre
    /\ get_locations t = Some [].
Proof.
  induction tasks as [|t0 tasks IH]; intros Hin Hempty.
  - by apply elem_of_nil in Hin.
  - destruct (no_workers (get_locations t0)) eqn:Ht0.
    + exists [], t0, tasks. split; [reflexivity|]. split; [constructor|].
      by apply no_workers_empty.
    + apply elem_of_cons in Hin as [->|Hin].
      { rewrite Hempty in Ht0. discriminate. }
      destruct (IH Hin Hempty) as (pre & t & post & -> & Hpre & Ht).
      exists (t0 :: pre), t, post. split; [reflexivity|].
      split; [by constructor | exact Ht].
Qed.

End get_futures.

(** ** [run_job] on a task without eligible workers *)

(** C1.  When a job holds a task whose [get_locations()] is an empty
    sequence, the first [next] on [run_job(job)] raises the dispatcher's
    [ValueError "no workers found for task"], for both executors: the
    generator is finished without a result, and the pool was given only
    tasks that precede the first such task, all of them with workers, so
    never the task itself. *)
Theorem run_job_no_eligible_workers (job : Job) (task : Task) (c : Client) (w : World) :
  task ∈ get_tasks job ->
  get_locations task = Some [] ->
  exists pre post,
    get_tasks job = pre ++ post /\ Forall has_workers pre /\ (task ∉ pre) /\
    let w' := submit_all (task_submission <$> pre) w in
    let err := ValueError "no workers found for task" in
    (forall il,
       let self := DaskJobExecutor.mk il (Some c) in
       DaskJobExecutor.run_job_next self (DaskJobExecutor.run_job self job) w
       = (w', GenClosed, Raised err))
    /\ (forall il fs,
       let self := AsyncDaskJobExecutor.mk il (Some c) fs in
       AsyncDaskJobExecutor.run_job_next self (AsyncDaskJobExecutor.run_job self job) w
       = (self, w', GenClosed, Raised err)).
Proof.
  intros Hin Hempty.
  destruct (first_without_workers _ _ Hin Hempty) as (pre & t & post & Htasks & Hpre & Ht).
  exists pre, (t :: post). split; [exact Htasks|]. split; [exact Hpre|]. split.
  - intros Hpre_in. rewrite Forall_forall in Hpre.
    specialize (Hpre _ Hpre_in). unfold has_workers in Hpre.
    rewrite Hempty in Hpre. discriminate.
  - simpl. split; intros; simpl; unfold CommonDaskMixin._get_futures;
      rewrite Htasks, get_futures_loop_fail by assumption; reflexivity.
Qed.

Lemma run_job_no_eligible_workers_witness :
  exists pre post,
    get_tasks job_nowhere = pre ++ post /\ Forall has_workers pre /\ (task_nowhere 1 ∉ pre) /\
    let w' := submit_all (task_submission <$> pre) world0 in
    let err := ValueError "no workers found for task" in
    (forall il,
       let self := DaskJobExecutor.mk il (Some client0) in
       DaskJobExecutor.run_job_next self (DaskJobExecutor.run_job self job_nowhere) world0
       = (w', GenClosed, Raised err))
    /\ (forall il fs,
       let self := AsyncDaskJobExecutor.mk il (Some client0) fs in
       AsyncDaskJobExecutor.run_job_next self (AsyncDaskJobExecutor.run_job self job_nowhere) world0
       = (self, w', GenClosed, Raised err)).
Proof.
  apply (run_job_no_eligible_workers job_nowhere (task_nowhere 1) client0 world0).
  - simpl. apply list_elem_of_further, list_elem_of_here.
  - reflexivity.
Defined.

(** ** Submission that fails partway *)

(** C5, as stated, fails: after the submission of [job_nowhere] failed at
    its second task, the handle of the first task is still submitted and
    nobody cancelled it. *)
Lemma get_futures_leaves_orphan :
  let out := CommonDaskMixin._get_futures (Some client0) job_nowhere world0 in
  out.2 = Raise (ValueError "no workers found for task")
  /\ submitted out.1 = [task_submission (task_anywhere 0 10)]
  /\ orphaned out.1 0 = true.
Proof. vm_compute. auto. Qed.

(** C5, amended.  When the submission of a job fails at a task without
    workers, [_get_futures] raises with exactly the tasks before that one
    submitted (no later task reaches the pool), and propagates the error
    without any cancellation: the pool received no cancellation request
    and its completion log is as before, so the handles it submitted are
    left in the pool, orphaned. *)
Theorem get_futures_partial_failure (c : Client) (job : Job)
    (pre post : list Task) (task : Task) (w : World) :
  get_tasks job = pre ++ task :: post ->
  Forall has_workers pre ->
  get_locations task = Some [] ->
  let out := CommonDaskMixin._get_futures (Some c) job w in
  out.2 = Raise (ValueError "no workers found for task")
  /\ submitted out.1 = submitted w ++ (task_submission <$> pre)
  /\ cancel_requests out.1 = cancel_requests w
  /\ completed out.1 = completed w
  /\ (forall k, k ∈ new_futures w (length pre) ->
        k ∉ (completed w).*1 -> k ∉ concat (cancel_requests w) ->
        orphaned out.1 k = true).
Proof.
  intros Htasks Hpre Hempty out. subst out.
  unfold CommonDaskMixin._get_futures.
  rewrite Htasks, get_futures_loop_fail by assumption. simpl.
  split; [reflexivity|]. split; [reflexivity|]. split; [reflexivity|].
  split; [reflexivity|].
  intros k Hk Hnd Hnr. unfold orphaned, future_cancelled. simpl.
  unfold new_futures in Hk. apply elem_of_seq in Hk.
  rewrite length_app, length_fmap.
  rewrite bool_decide_eq_true_2 by lia.
  rewrite (bool_decide_eq_false_2 (_ ∈ completed w)).
  - by rewrite (bool_decide_eq_false_2 _ Hnr).
  - intros Hc. apply Hnd. apply list_elem_of_fmap. by exists (k, Cancelled).
Qed.

Lemma get_futures_partial_failure_witness :
  let out := CommonDaskMixin._get_futures (Some client0) job_nowhere world0 in
  out.2 = Raise (ValueError "no workers found for task")
  /\ submitted out.1 = submitted world0 ++ (task_submission <$> [task_anywhere 0 10])
  /\ cancel_requests out.1 = cancel_requests world0
  /\ completed out.1 = completed world0
  /\ (forall k, k ∈ new_futures world0 (length [task_anywhere 0 10]) ->
        k ∉ (completed world0).*1 -> k ∉ concat (cancel_requests world0) ->
        orphaned out.1 k = true).
Proof.
  apply (get_futures_partial_failure client0 job_nowhere
           [task_anywhere 0 10] [task_anywhere 2 12] (task_nowhere 1) world0).
  - reflexivity.
  - repeat constructor.
  - reflexivity.
Defined.

(** ** Well-formed pools and fresh futures *)

Lemma world0_wf : pool_wf world0.
Proof. split; [apply NoDup_nil_2 | apply Forall_nil_2]. Qed.

Lemma completion_order_new_futures w subs n :
  pool_wf w ->
  completion_order (submit_all subs w) (new_futures w n) = [].
Proof.
  intros [_ Hlt]. unfold completion_order. simpl.
  destruct (filter _ _) as [|d l] eqn:Hf; [reflexivity|].
  assert (Hd : d ∈ filter (fun d => d.1 ∈ new_futures w n) (completed w)).
  { rewrite Hf. apply list_elem_of_here. }
  apply list_elem_of_filter in Hd as [Hnew Hd].
  unfold new_futures in Hnew. apply elem_of_seq in Hnew.
  rewrite Forall_forall in Hlt.
  specialize (Hlt d.1 (list_elem_of_fmap_2 fst _ _ Hd)). lia.
Qed.

(** The first [next] on a stream of fresh futures. *)
Lemma as_completed_next_new_futures w subs n :
  pool_wf w ->
  as_completed_next (submit_all subs w) (mkAsCompleted (new_futures w n) 0)
  = match n with 0 => SStop | S _ => SWait end.
Proof.
  intros Hwf. unfold as_completed_next. simpl.
  rewrite completion_order_new_futures by exact Hwf.
  unfold new_futures. rewrite length_seq.
  destruct n; reflexivity.
Qed.

(** ** [map_partitions] *)

Lemma map_partitions_submit_ok c fn kw partitions :
  "partition" ∉ kw.*1 ->
  forall futures w,
  DaskJobExecutor.map_partitions_submit (Some c) fn kw partitions futures w
  = (submit_all (partition_submission fn kw <$> partitions) w,
     Ok (futures ++ new_futures w (length partitions))).
Proof.
  intros Hkey.
  induction partitions as [|p partitions IH]; intros futures w; simpl.
  - rewrite submit_all_nil. unfold new_futures. simpl. by rewrite app_nil_r.
  - unfold bind, DaskJobExecutor.functools_partial.
    rewrite bool_decide_eq_false_2 by exact Hkey.
    unfold client_submit, get, modify, ret. simpl.
    rewrite IH.
    fold (submit_all [mkSubmission (PartialCall fn p kw) (get_locations p)] w).
    rewrite submit_all_cons. f_equal. f_equal.
    unfold new_futures, submit_all. simpl. rewrite length_app. simpl.
    rewrite <- app_assoc. simpl. do 3 f_equal. lia.
Qed.

(** A key ['partition'] among the keyword arguments stops the loop at the
    first partition, before anything is submitted. *)
Lemma map_partitions_submit_duplicate client fn kw p partitions futures w :
  "partition" ∈ kw.*1 ->
  DaskJobExecutor.map_partitions_submit client fn kw (p :: partitions) futures w
  = (w, Raise TypeError).
Proof.
  intros Hkey. simpl.
  unfold bind, DaskJobExecutor.functools_partial.
  by rewrite bool_decide_eq_true_2 by exact Hkey.
Qed.

(** The submission loop either submits for every partition, or raises
    and leaves the pool as it was. *)
Lemma map_partitions_submit_cases client fn kw partitions w :
  (exists subs,
     DaskJobExecutor.map_partitions_submit client fn kw partitions [] w
     = (submit_all subs w, Ok (new_futures w (length partitions))))
  \/ (exists e,
        DaskJobExecutor.map_partitions_submit client fn kw partitions [] w
        = (w, Raise e)).
Proof.
  destruct partitions as [|p partitions].
  { left. exists []. by rewrite submit_all_nil. }
  destruct (decide ("partition" ∈ kw.*1)) as [Hkey|Hkey].
  { right. exists TypeError. by apply map_partitions_submit_duplicate. }
  destruct client as [c|].
  - left. eexists. by rewrite map_partitions_submit_ok.
  - right. eexists. simpl.
    unfold bind, DaskJobExecutor.functools_partial.
    rewrite bool_decide_eq_false_2 by exact Hkey. reflexivity.
Qed.

(** C10.  [map_partitions] has no check for eligible workers.  Its first
    [next] never raises a [ValueError]; and for keyword arguments without
    a key ['partition'] (with that key, building the bound function
    raises a [TypeError] before anything is submitted) it submits the
    bound function of every partition of the dataset with [workers] set
    to [partition.get_locations()] as it is, an empty sequence included,
    and then waits on the completion stream (or stops, for a dataset
    without partitions); it does not raise. *)
Theorem map_partitions_no_worker_check (il : bool) (c : Client)
    (ds : Dataset) (fn : Partition -> kwargs -> res value)
    (fn_kwargs : option kwargs) (w : World) :
  pool_wf w ->
  let self := DaskJobExecutor.mk il (Some c) in
  let kw := match fn_kwargs with None => [] | Some kw => kw end in
  let out := DaskJobExecutor.map_partitions_next self
               (DaskJobExecutor.map_partitions self ds fn fn_kwargs) w in
  (forall msg, out.2 <> Raised (ValueError msg))
  /\ ("partition" ∉ kw.*1 ->
      submitted out.1.1
        = submitted w ++ (partition_submission fn kw <$> get_partitions ds)
      /\ (forall p, p ∈ get_partitions ds ->
            mkSubmission (PartialCall fn p kw) (get_locations p)
              ∈ submitted out.1.1)
      /\ out.2 = match get_partitions ds with
                 | [] => StopIteration
                 | _ => Waiting
                 end).
Proof.
  intros Hwf self kw out.
  assert (Hsubmit : "partition" ∉ kw.*1 ->
            out = DaskJobExecutor.map_partitions_loop
                    (DaskJobExecutor.mk_args ds fn fn_kwargs)
                    (mkAsCompleted (new_futures w (length (get_partitions ds))) 0)
                    (submit_all (partition_submission fn kw <$> get_partitions ds) w)).
  { intros Hkey. subst out. unfold DaskJobExecutor.map_partitions. simpl.
    fold kw. by rewrite map_partitions_submit_ok. }
  assert (Hloop : DaskJobExecutor.map_partitions_loop
                    (DaskJobExecutor.mk_args ds fn fn_kwargs)
                    (mkAsCompleted (new_futures w (length (get_partitions ds))) 0)
                    (submit_all (partition_submission fn kw <$> get_partitions ds) w)
                  = (submit_all (partition_submission fn kw <$> get_partitions ds) w,
                     match get_partitions ds with
                     | [] => GenClosed
                     | _ => GenSuspended (DaskJobExecutor.mk_args ds fn fn_kwargs)
                              (mkAsCompleted
                                 (new_futures w (length (get_partitions ds))) 0)
                     end,
                     match get_partitions ds with
                     | [] => StopIteration
                     | _ => Waiting
                     end)).
  { unfold DaskJobExecutor.map_partitions_loop.
    rewrite as_completed_next_new_futures by exact Hwf.
    by destruct (get_partitions ds). }
  split.
  - intros msg. destruct (decide ("partition" ∈ kw.*1)) as [Hkey|Hkey].
    + subst out. unfold DaskJobExecutor.map_partitions. simpl. fold kw.
      destruct (get_partitions ds) as [|p0 ps].
      * simpl. unfold DaskJobExecutor.map_partitions_loop, as_completed_next.
        simpl. discriminate.
      * by rewrite map_partitions_submit_duplicate.
    + rewrite (Hsubmit Hkey), Hloop. simpl. by destruct (get_partitions ds).
  - intros Hkey. rewrite (Hsubmit Hkey), Hloop. simpl.
    split; [reflexivity|]. split; [|reflexivity].
    intros p Hp. apply elem_of_app. right.
    change (partition_submission fn kw p
              ∈ partition_submission fn kw <$> get_partitions ds).
    by apply list_elem_of_fmap_2.
Qed.

Lemma map_partitions_no_worker_check_witness :
  let self := DaskJobExecutor.mk false (Some client0) in
  let out := DaskJobExecutor.map_partitions_next self
               (DaskJobExecutor.map_partitions self dataset_nowhere fn_index None) world0 in
  submitted out.1.1
    = [mkSubmission (PartialCall fn_index (mkPartition 0 None) []) None;
       mkSubmission (PartialCall fn_index (mkPartition 1 (Some [])) []) (Some [])]
  /\ out.2 = Waiting.
Proof.
  pose proof (map_partitions_no_worker_check false client0 dataset_nowhere
                fn_index None world0 world0_wf) as [_ H].
  simpl in H. destruct (H (not_elem_of_nil _)) as (H1 & _ & H3).
  split; [exact H1 | exact H3].
Defined.

(** ** [close] *)

(** C6 fails for the blocking executor: with [client] equal to [None],
    [close] raises the [AttributeError] of the attribute lookup on
    [None], and logs nothing. *)
Theorem DaskJobExecutor_close_none_raises (il : bool) (w : World) :
  DaskJobExecutor.close (DaskJobExecutor.mk il None) w
  = (w, Raise (none_has_no_attribute (if il then "cluster" else "close"))).
Proof. destruct il; reflexivity. Qed.

(** The asynchronous [close] never raises: whatever the closing of the
    client or of the cluster raises is caught and logged. *)
Lemma AsyncDaskJobExecutor_close_never_raises (self : AsyncDaskJobExecutor.t) (w : World) :
  (AsyncDaskJobExecutor.close self w).2 = Ok tt.
Proof.
  unfold AsyncDaskJobExecutor.close, try_except, bind, client_close,
    cluster_close, log_error, log_exception, modify, raise, ret.
  destruct self as [il [c|] fs]; simpl; [|reflexivity].
  destruct (client_close_raises c); simpl; [reflexivity|].
  destruct il; simpl; [|reflexivity].
  destruct (cluster c) as [cl|]; simpl; [|reflexivity].
  destruct (cluster_close_raises cl) as [e|]; simpl; [|reflexivity].
  destruct e; reflexivity.
Qed.

(** With [client] equal to [None] it logs an error and returns. *)
Lemma AsyncDaskJobExecutor_close_none (il : bool) fs (w : World) :
  AsyncDaskJobExecutor.close (AsyncDaskJobExecutor.mk il None fs) w
  = (set_log_records
       (fun l => l ++ [(ERROR, "could not close dask executor, client is None"%string)]) w,
     Ok tt).
Proof. reflexivity. Qed.

(** ** The tracker of the asynchronous executor *)

Section tracker.
Import AsyncDaskJobExecutor.

(** What the loop does to the executor and to the world, by outcome. *)
Lemma run_job_loop_effect self job ac w :
  let out := run_job_loop self job ac w in
  out.1.1.2 = w
  /\ match out.2 with
     | StopIteration =>
         is_Some (_futures self !! job_id job)
         /\ out.1.1.1 = set_futures (delete (job_id job)) self
         /\ out.1.2 = GenClosed
     | Yield _ => out.1.1.1 = self /\ out.1.2 = GenSuspended job (advance ac)
     | Waiting => out.1.1.1 = self /\ out.1.2 = GenSuspended job ac
     | Raised _ => out.1.1.1 = self /\ out.1.2 = GenClosed
     end.
Proof.
  unfold run_job_loop.
  destruct (as_completed_next w ac) as [k v| | |]; simpl.
  - destruct (future_cancelled w k); simpl; auto.
  - destruct (_futures self !! job_id job) eqn:Hj; simpl; eauto.
  - auto.
  - auto.
Qed.

Lemma lookup_set_futures_delete self (k : positive) :
  _futures (set_futures (delete k) self) !! k = None.
Proof. simpl. apply lookup_delete_eq. Qed.

End tracker.

(** C7.  When a [next] on a live generator of the asynchronous [run_job(J)]
    ends the result sequence with [StopIteration], [J] is no longer a key
    of [_futures], and [cancel_job(J)] after that returns without an error
    and leaves the world as it is: no cancellation request reaches the
    pool. *)
Theorem exhausted_job_is_forgotten (self self' : AsyncDaskJobExecutor.t)
    (job : Job) (g g' : generator Job) (w w' : World) :
  live_on job g ->
  AsyncDaskJobExecutor.run_job_next self g w = (self', w', g', StopIteration) ->
  AsyncDaskJobExecutor._futures self' !! job_id job = None
  /\ g' = GenClosed
  /\ AsyncDaskJobExecutor.cancel_job self' job w' = (w', Ok tt).
Proof.
  intros Hlive Hnext.
  assert (Hgone : AsyncDaskJobExecutor._futures self' !! job_id job = None /\ g' = GenClosed).
  { destruct g as [j|j ac|]; simpl in Hlive; [subst j|subst j|contradiction];
      simpl in Hnext.
    - destruct (CommonDaskMixin._get_futures _ _ _) as [w1 [futures|e]];
        [|discriminate].
      pose proof (run_job_loop_effect
        (AsyncDaskJobExecutor.set_futures (insert (job_id job) futures) self)
        job (mkAsCompleted futures 0) w1) as H.
      rewrite Hnext in H. simpl in H. destruct H as (_ & _ & -> & ->).
      split; [apply lookup_set_futures_delete | reflexivity].
    - pose proof (run_job_loop_effect self job ac w) as H.
      rewrite Hnext in H. simpl in H. destruct H as (_ & _ & -> & ->).
      split; [apply lookup_set_futures_delete | reflexivity]. }
  destruct Hgone as [Hgone ->]. split; [exact Hgone|]. split; [reflexivity|].
  unfold AsyncDaskJobExecutor.cancel_job. rewrite Hgone. reflexivity.
Qed.

Lemma exhausted_job_is_forgotten_witness :
  let c := after_one_result in
  let out := AsyncDaskJobExecutor.run_job_next
               (AsyncDaskJobExecutor.self_ c) (AsyncDaskJobExecutor.gen c)
               (AsyncDaskJobExecutor.world c) in
  AsyncDaskJobExecutor.outs c = [Waiting; Yield (VResult 10)]
  /\ out.2 = StopIteration
  /\ AsyncDaskJobExecutor._futures out.1.1.1 !! job_id job_one = None
  /\ AsyncDaskJobExecutor.cancel_job out.1.1.1 job_one out.1.1.2
     = (out.1.1.2, Ok tt).
Proof.
  intros c out.
  assert (Hout : out = (out.1.1.1, out.1.1.2, out.1.2, StopIteration))
    by (vm_compute; reflexivity).
  split; [vm_compute; reflexivity|]. split; [vm_compute; reflexivity|].
  destruct (exhausted_job_is_forgotten
              (AsyncDaskJobExecutor.self_ c) out.1.1.1 job_one
              (AsyncDaskJobExecutor.gen c) out.1.2
              (AsyncDaskJobExecutor.world c) out.1.1.2) as (H1 & _ & H3).
  - vm_compute. reflexivity.
  - exact Hout.
  - split; [exact H1 | exact H3].
Defined.

(** ** Cancellation seen by the stream *)

(** A cancelled future at the head of the stream is reported as
    cancelled. *)
Lemma completion_order_cancelled w futures i k :
  completion_order w futures !! i = Some (k, Cancelled) ->
  future_cancelled w k = true.
Proof.
  intros Hi. unfold future_cancelled. apply bool_decide_eq_true_2.
  apply list_elem_of_lookup_2 in Hi. unfold completion_order in Hi.
  by apply list_elem_of_filter in Hi as [_ Hi].
Qed.

(** C4, amended.  In the asynchronous executor, when the completion stream
    of a job hands over a future that was cancelled, [run_job] raises
    [JobCancelledError] to the caller of [next] instead of yielding a
    result for it, and the result sequence is over: the generator is
    closed, every later [next] gives [StopIteration]. *)
Theorem cancelled_future_raises (self : AsyncDaskJobExecutor.t) (job : Job)
    (ac : as_completed) (w : World) (k : Future) :
  ac_taken ac < length (ac_futures ac) ->
  completion_order w (ac_futures ac) !! ac_taken ac = Some (k, Cancelled) ->
  AsyncDaskJobExecutor.run_job_next self (GenSuspended job ac) w
    = (self, w, GenClosed, Raised JobCancelledError)
  /\ AsyncDaskJobExecutor.run_job_next self GenClosed w
    = (self, w, GenClosed, StopIteration).
Proof.
  intros Hlt Hk. split; [|reflexivity]. simpl.
  unfold AsyncDaskJobExecutor.run_job_loop, as_completed_next.
  rewrite decide_False by lia. rewrite Hk.
  by rewrite (completion_order_cancelled _ _ _ _ Hk).
Qed.

Lemma cancelled_future_raises_witness :
  AsyncDaskJobExecutor.run_job_next async0
    (GenSuspended job_one (mkAsCompleted [0] 0)) world_cancelled
    = (async0, world_cancelled, GenClosed, Raised JobCancelledError)
  /\ AsyncDaskJobExecutor.run_job_next async0 GenClosed world_cancelled
    = (async0, world_cancelled, GenClosed, StopIteration).
Proof.
  apply (cancelled_future_raises async0 job_one (mkAsCompleted [0] 0)
           world_cancelled 0).
  - simpl. lia.
  - reflexivity.
Defined.

(** C4, as stated, fails for the blocking executor: its [run_job] has no
    cancellation check.  When the only future of [job_one] is cancelled
    while the consumer waits, the next [next] yields what the stream
    delivered for it and the sequence ends normally; nothing is raised. *)
Lemma blocking_run_job_yields_cancelled :
  let c := DaskJobExecutor.run sync0 [Next; Env (EvCancel 0); Next; Next]
             (DaskJobExecutor.mk_config world0
                (DaskJobExecutor.run_job sync0 job_one) []) in
  DaskJobExecutor.outs c = [Waiting; Yield (VCancelledError 0); StopIteration]
  /\ Raised JobCancelledError ∉ DaskJobExecutor.outs c.
Proof.
  split; [reflexivity|]. vm_compute.
  intros H. repeat (apply elem_of_cons in H as [H|H]; [discriminate|]).
  by apply elem_of_nil in H.
Qed.

(** ** A cancelled job stays tracked *)

Section cancelled_stays_tracked.
Import AsyncDaskJobExecutor.

Variable job : Job.

Lemma get_futures_loop_errors client tasks : forall futures w w' e,
  CommonDaskMixin._get_futures_loop client tasks futures w = (w', Raise e) ->
  e <> JobCancelledError.
Proof.
  induction tasks as [|t tasks IH]; intros futures w w' e; simpl.
  - discriminate.
  - destruct (no_workers (get_locations t)).
    + intros [= _ <-]. discriminate.
    + destruct client as [c|]; unfold bind; simpl.
      * apply IH.
      * intros [= _ <-]. discriminate.
Qed.

Lemma cancelled_seen_snoc c s w g o :
  o <> Raised JobCancelledError ->
  cancelled_seen (mk_config s w g (outs c ++ [o])) -> cancelled_seen c.
Proof.
  unfold cancelled_seen. simpl. intros Ho Hin.
  apply elem_of_app in Hin as [Hin|Hin]; [exact Hin|].
  apply list_elem_of_singleton in Hin. congruence.
Qed.

Lemma tracker_inv_loop c s ac :
  is_Some (_futures s !! job_id job) ->
  ~ cancelled_seen c ->
  tracker_inv job
    (let out := run_job_loop s job ac (world c) in
     mk_config out.1.1.1 out.1.1.2 out.1.2 (outs c ++ [out.2])).
Proof.
  intros Htr Hns.
  pose proof (run_job_loop_effect s job ac (world c)) as H.
  destruct (run_job_loop s job ac (world c)) as [[[s1 w1] g1] o1].
  simpl in *. destruct H as [-> H].
  destruct o1 as [v| |e|].
  - destruct H as [-> ->]. unfold tracker_inv. simpl.
    split; [reflexivity|]. split; [exact Htr|].
    intros Hc. apply Hns. revert Hc. by apply cancelled_seen_snoc.
  - destruct H as (_ & -> & ->). unfold tracker_inv. simpl.
    intros Hc. exfalso. apply Hns. revert Hc. by apply cancelled_seen_snoc.
  - destruct H as [-> ->]. unfold tracker_inv. simpl. intros _. exact Htr.
  - destruct H as [-> ->]. unfold tracker_inv. simpl.
    split; [reflexivity|]. split; [exact Htr|].
    intros Hc. apply Hns. revert Hc. by apply cancelled_seen_snoc.
Qed.

Lemma tracker_inv_step c a : tracker_inv job c -> tracker_inv job (step c a).
Proof.
  intros Hinv. destruct a as [[ev|]|j]; [exact Hinv| |exact Hinv].
  destruct c as [s w g os]. unfold tracker_inv in Hinv. simpl in Hinv.
  unfold step. simpl. destruct g as [j|j ac|]; simpl.
  - destruct Hinv as [-> Hns].
    destruct (CommonDaskMixin._get_futures (client s) job w)
      as [w1 [futures|e]] eqn:Hget.
    + pose proof (tracker_inv_loop (mk_config s w1 (GenCreated job) os)
        (set_futures (insert (job_id job) futures) s)
        (mkAsCompleted futures 0)) as H. simpl in H.
      destruct (run_job_loop _ job _ w1) as [[[s2 w2] g2] o2]. simpl in H.
      apply H; [|exact Hns]. rewrite lookup_insert_eq. by eexists.
    + unfold tracker_inv. simpl. intros Hc. exfalso. apply Hns.
      revert Hc. apply (cancelled_seen_snoc (mk_config s w (GenCreated job) os)).
      intros [= ->]. by eapply get_futures_loop_errors.
  - destruct Hinv as (-> & Htr & Hns).
    pose proof (tracker_inv_loop (mk_config s w (GenSuspended job ac) os)
      s ac Htr Hns) as H. simpl in H.
    destruct (run_job_loop s job ac w) as [[[s2 w2] g2] o2]. exact H.
  - unfold tracker_inv. simpl. intros Hc. apply Hinv.
    revert Hc. apply (cancelled_seen_snoc (mk_config s w GenClosed os)).
    discriminate.
Qed.

Lemma tracker_inv_run script : forall c,
  tracker_inv job c -> tracker_inv job (run script c).
Proof.
  induction script as [|a script IH]; intros c Hinv; [exact Hinv|].
  simpl. apply IH. by apply tracker_inv_step.
Qed.

End cancelled_stays_tracked.

(** C9.  In the asynchronous executor, whatever the pool does and
    whenever [cancel_job] is called, once a [next] on [run_job(job)] has
    raised the cancellation error the generator is closed and [job] is
    still a key of [_futures]; a [next] on a live generator takes a
    tracked job out of [_futures] only when it ends the stream with
    [StopIteration]. *)
Theorem cancelled_job_stays_tracked (script : list AsyncDaskJobExecutor.async_action)
    (self : AsyncDaskJobExecutor.t) (job : Job) (w : World) :
  let c := AsyncDaskJobExecutor.run script
             (AsyncDaskJobExecutor.mk_config self w
                (AsyncDaskJobExecutor.run_job self job) []) in
  Raised JobCancelledError ∈ AsyncDaskJobExecutor.outs c ->
  AsyncDaskJobExecutor.gen c = GenClosed
  /\ is_Some (AsyncDaskJobExecutor._futures (AsyncDaskJobExecutor.self_ c) !! job_id job)
  /\ (forall s g w1,
        live_on job g ->
        let out := AsyncDaskJobExecutor.run_job_next s g w1 in
        is_Some (AsyncDaskJobExecutor._futures s !! job_id job) ->
        AsyncDaskJobExecutor._futures out.1.1.1 !! job_id job = None ->
        out.2 = StopIteration).
Proof.
  intros c Hseen.
  assert (Hinv : tracker_inv job c).
  { apply tracker_inv_run. unfold tracker_inv, cancelled_seen. simpl.
    split; [reflexivity|]. apply not_elem_of_nil. }
  unfold tracker_inv in Hinv. fold (cancelled_seen c) in Hseen.
  split; [|split].
  - destruct (AsyncDaskJobExecutor.gen c); [| |reflexivity].
    + destruct Hinv as [_ Hns]. contradiction.
    + destruct Hinv as (_ & _ & Hns). contradiction.
  - destruct (AsyncDaskJobExecutor.gen c).
    + destruct Hinv as [_ Hns]. contradiction.
    + destruct Hinv as (_ & Htr & _). exact Htr.
    + by apply Hinv.
  - intros s g w1 Hlive out Htr Hnone. subst out.
    destruct g as [j|j ac|]; simpl in Hlive; [subst j|subst j|contradiction];
      simpl in *.
    + destruct (CommonDaskMixin._get_futures _ _ _) as [w2 [futures|e]].
      * pose proof (run_job_loop_effect
          (AsyncDaskJobExecutor.set_futures (insert (job_id job) futures) s)
          job (mkAsCompleted futures 0) w2) as H.
        destruct (AsyncDaskJobExecutor.run_job_loop _ job _ w2) as [[[s3 w3] g3] o3].
        simpl in *. destruct H as [_ H].
        destruct o3; try reflexivity; destruct H as [-> _];
          simpl in Hnone; rewrite lookup_insert_eq in Hnone; discriminate.
      * simpl in Hnone. rewrite Hnone in Htr. by destruct Htr.
    + pose proof (run_job_loop_effect s job ac w1) as H.
      destruct (AsyncDaskJobExecutor.run_job_loop s job ac w1) as [[[s3 w3] g3] o3].
      simpl in *. destruct H as [_ H].
      destruct o3; try reflexivity; destruct H as [-> _];
        rewrite Hnone in Htr; by destruct Htr.
Qed.

Lemma cancelled_job_stays_tracked_witness :
  let c := AsyncDaskJobExecutor.run
             [AsyncDaskJobExecutor.Act Next;
              AsyncDaskJobExecutor.CancelJob job_one;
              AsyncDaskJobExecutor.Act (Env (EvCancel 0));
              AsyncDaskJobExecutor.Act Next]
             (AsyncDaskJobExecutor.mk_config async0 world0
                (AsyncDaskJobExecutor.run_job async0 job_one) []) in
  AsyncDaskJobExecutor.outs c = [Waiting; Raised JobCancelledError]
  /\ cancel_requests (AsyncDaskJobExecutor.world c) = [[0]]
  /\ AsyncDaskJobExecutor.gen c = GenClosed
  /\ is_Some (AsyncDaskJobExecutor._futures (AsyncDaskJobExecutor.self_ c) !! job_id job_one).
Proof.
  intros c. split; [reflexivity|]. split; [reflexivity|].
  destruct (cancelled_job_stays_tracked
              [AsyncDaskJobExecutor.Act Next;
               AsyncDaskJobExecutor.CancelJob job_one;
               AsyncDaskJobExecutor.Act (Env (EvCancel 0));
               AsyncDaskJobExecutor.Act Next]
              async0 job_one world0) as (H1 & H2 & _).
  - vm_compute. apply list_elem_of_further, list_elem_of_here.
  - split; [exact H1 | exact H2].
Defined.

(** ** A second [run_job] on a job in flight *)

Section two_consumers.
Import AsyncDaskJobExecutor.

Variable job : Job.

Lemma ending_snoc os o :
  ending (os ++ [o])
  = match ending os with
    | Some e => Some e
    | None => if is_end o then Some o else None
    end.
Proof.
  induction os as [|o' os IH]; simpl; [by destruct (is_end o)|].
  by destruct (is_end o').
Qed.

(** A [next] on a started generator of the job, seen from the outcomes
    of its consumer and from the entry of the job. *)
Lemma started_on_next self g os w :
  started_on job g os ->
  let out := run_job_next self g w in
  started_on job out.1.2 (os ++ [out.2])
  /\ (ending os = Some StopIteration -> ending (os ++ [out.2]) = Some StopIteration)
  /\ (ending (os ++ [out.2]) = Some StopIteration ->
      ending os = Some StopIteration /\ out.1.1.1 = self
      \/ is_Some (_futures self !! job_id job)
         /\ out.1.1.1 = set_futures (delete (job_id job)) self)
  /\ (ending (os ++ [out.2]) <> Some StopIteration -> out.1.1.1 = self).
Proof.
  intros Hg. destruct g as [j|j ac|]; simpl in Hg; [contradiction| |].
  - destruct Hg as [-> Hend]. simpl.
    pose proof (run_job_loop_effect self job ac w) as [_ Heff].
    destruct (run_job_loop self job ac w) as [[[s1 w1] g1] o1]. simpl in *.
    rewrite ending_snoc, Hend.
    destruct o1 as [v| |e|]; simpl.
    + destruct Heff as [-> ->]. simpl. by rewrite ending_snoc, Hend.
    + destruct Heff as (Hsome & -> & ->). simpl.
      split; [rewrite ending_snoc, Hend; simpl; eauto|].
      split; [done|]. split; [by right|done].
    + destruct Heff as [-> ->]. simpl.
      split; [rewrite ending_snoc, Hend; simpl; eauto|].
      split; [done|]. split; [done|done].
    + destruct Heff as [-> ->]. simpl. by rewrite ending_snoc, Hend.
  - destruct Hg as [e He]. simpl. rewrite ending_snoc, He. simpl.
    split; [eauto|]. split; [done|]. split; [|done].
    intros Heq. by left.
Qed.

Lemma duo_inv_step d a : duo_inv job d -> duo_inv job (duo_step d a).
Proof.
  intros (H1 & H2 & Hgone & Hboth). destruct a as [ev| |].
  - done.
  - unfold duo_step.
    pose proof (started_on_next (duo_self d) (gen_first d) (outs_first d)
                  (duo_world d) H1) as (Hs & Hkeep & Hstop & Hsame).
    destruct (run_job_next (duo_self d) (gen_first d) (duo_world d))
      as [[[s1 w1] g1] o1].
    unfold duo_inv. simpl in *.
    split; [exact Hs|]. split; [exact H2|].
    destruct (decide (ending (outs_first d ++ [o1]) = Some StopIteration))
      as [Heq|Hne].
    + destruct (Hstop Heq) as [[Hold ->]|[Hsome ->]].
      * split; [intros _; apply Hgone; by left|].
        intros [_ Hsnd]. apply Hboth. by split.
      * split; [intros _; apply lookup_delete_eq|].
        intros [_ Hsnd]. rewrite Hgone in Hsome by (by right).
        by destruct Hsome.
    + rewrite (Hsame Hne).
      split; [|by intros [Hfst _]].
      intros [Hfst|Hsnd]; [done|]. apply Hgone. by right.
  - unfold duo_step.
    pose proof (started_on_next (duo_self d) (gen_second d) (outs_second d)
                  (duo_world d) H2) as (Hs & Hkeep & Hstop & Hsame).
    destruct (run_job_next (duo_self d) (gen_second d) (duo_world d))
      as [[[s1 w1] g1] o1].
    unfold duo_inv. simpl in *.
    split; [exact H1|]. split; [exact Hs|].
    destruct (decide (ending (outs_second d ++ [o1]) = Some StopIteration))
      as [Heq|Hne].
    + destruct (Hstop Heq) as [[Hold ->]|[Hsome ->]].
      * split; [intros _; apply Hgone; by right|].
        intros [Hfst _]. apply Hboth. by split.
      * split; [intros _; apply lookup_delete_eq|].
        intros [Hfst _]. rewrite Hgone in Hsome by (by left).
        by destruct Hsome.
    + rewrite (Hsame Hne).
      split; [|by intros [_ Hsnd]].
      intros [Hfst|Hsnd]; [|done]. apply Hgone. by left.
Qed.

Lemma duo_inv_run script : forall d,
  duo_inv job d -> duo_inv job (duo_run script d).
Proof.
  induction script as [|a script IH]; intros d Hinv; [exact Hinv|].
  simpl. apply IH. by apply duo_inv_step.
Qed.

(** With the entry of the job gone, the [del] behind an exhausted stream
    raises. *)
Lemma exhausted_untracked_raises self ac w :
  _futures self !! job_id job = None ->
  length (ac_futures ac) <= ac_taken ac ->
  run_job_next self (GenSuspended job ac) w = (self, w, GenClosed, Raised KeyError).
Proof.
  intros Hgone Hfull. simpl. unfold run_job_loop, as_completed_next.
  rewrite decide_True by exact Hfull. by rewrite Hgone.
Qed.

End two_consumers.

(** C3, as stated, fails: there is no duplicate check.  With [job_one]
    tracked and its generator suspended, the first [next] on a second
    [run_job(job_one)] raises nothing; it submits the task again and
    overwrites the entry of the job.  Both runs then go on: the first
    yields its result and ends, and the second yields its result and
    raises [KeyError]. *)
Lemma second_run_job_not_rejected :
  let first := AsyncDaskJobExecutor.run_job_next async0
                 (AsyncDaskJobExecutor.run_job async0 job_one) world0 in
  let second := AsyncDaskJobExecutor.run_job_next first.1.1.1
                 (AsyncDaskJobExecutor.run_job first.1.1.1 job_one) first.1.1.2 in
  let d := AsyncDaskJobExecutor.duo_run drain_both
             (AsyncDaskJobExecutor.mk_duo second.1.1.1 second.1.1.2
                first.1.2 second.1.2 [first.2] [second.2]) in
  AsyncDaskJobExecutor._futures first.1.1.1 !! job_id job_one = Some [0]
  /\ first.1.2 = GenSuspended job_one (mkAsCompleted [0] 0)
  /\ second.2 = Waiting
  /\ (forall e, second.2 <> Raised e)
  /\ AsyncDaskJobExecutor._futures second.1.1.1 !! job_id job_one = Some [1]
  /\ length (submitted second.1.1.2) = 2
  /\ AsyncDaskJobExecutor.outs_first d
     = [Waiting; Yield (VResult 10); StopIteration]
  /\ AsyncDaskJobExecutor.outs_second d
     = [Waiting; Yield (VResult 10); Raised KeyError].
Proof.
  vm_compute. repeat split; try reflexivity. intros e. discriminate.
Qed.

(** C3, amended.  Take a job that is a key of [_futures], with the
    generator of its first [run_job] suspended on the futures of the
    entry, tasks that all have workers, and an executor with a client.
    The first [next] on a second [run_job] of the job is not rejected and
    raises nothing: it submits the tasks again, replaces the entry of the
    job by the new futures, none of which is a future of the first run,
    and waits for the first completion; the blocking executor, which
    keeps no tracker, submits again and waits in the same way.  So
    nothing prevents the re-entrant run.  Both generators are then in
    flight on the one entry, and whatever the pool does and in whatever
    order the two are resumed, at most one of them ends with
    [StopIteration]; once one has, the job is no longer a key of
    [_futures], and a generator of the job whose stream is exhausted
    raises [KeyError]. *)
Theorem second_run_job_replaces_entry (il : bool) (c : Client)
    (fs : gmap positive (list Future)) (futures : list Future) (taken : nat)
    (job : Job) (w : World) (script : list AsyncDaskJobExecutor.duo_action) :
  pool_wf w ->
  Forall has_workers (get_tasks job) ->
  get_tasks job <> [] ->
  fs !! job_id job = Some futures ->
  Forall (fun k => k < length (submitted w)) futures ->
  let self := AsyncDaskJobExecutor.mk il (Some c) fs in
  let new := new_futures w (length (get_tasks job)) in
  let w' := submit_all (task_submission <$> get_tasks job) w in
  let out := AsyncDaskJobExecutor.run_job_next self
               (AsyncDaskJobExecutor.run_job self job) w in
  let d := AsyncDaskJobExecutor.duo_run script
             (AsyncDaskJobExecutor.mk_duo out.1.1.1 out.1.1.2
                (GenSuspended job (mkAsCompleted futures taken)) out.1.2
                [] [out.2]) in
  out = (AsyncDaskJobExecutor.set_futures (insert (job_id job) new) self, w',
         GenSuspended job (mkAsCompleted new 0), Waiting)
  /\ AsyncDaskJobExecutor._futures out.1.1.1 !! job_id job = Some new
  /\ (forall k, k ∈ futures -> k ∉ new)
  /\ (let self := DaskJobExecutor.mk il (Some c) in
      DaskJobExecutor.run_job_next self (DaskJobExecutor.run_job self job) w
      = (w', GenSuspended job (mkAsCompleted new 0), Waiting))
  /\ ~ (ending (AsyncDaskJobExecutor.outs_first d) = Some StopIteration
        /\ ending (AsyncDaskJobExecutor.outs_second d) = Some StopIteration)
  /\ (ending (AsyncDaskJobExecutor.outs_first d) = Some StopIteration
      \/ ending (AsyncDaskJobExecutor.outs_second d) = Some StopIteration ->
      AsyncDaskJobExecutor._futures (AsyncDaskJobExecutor.duo_self d) !! job_id job
        = None
      /\ forall ac w2,
           length (ac_futures ac) <= ac_taken ac ->
           AsyncDaskJobExecutor.run_job_next (AsyncDaskJobExecutor.duo_self d)
             (GenSuspended job ac) w2
           = (AsyncDaskJobExecutor.duo_self d, w2, GenClosed, Raised KeyError)).
Proof.
  intros Hwf Hall Hne Htracked Hold self new w' out d.
  assert (Hout : out = (AsyncDaskJobExecutor.set_futures (insert (job_id job) new) self,
                        w', GenSuspended job (mkAsCompleted new 0), Waiting)).
  { subst out. simpl. unfold CommonDaskMixin._get_futures.
    rewrite get_futures_loop_ok by exact Hall. simpl.
    unfold AsyncDaskJobExecutor.run_job_loop.
    fold new. fold w'. subst new w'.
    rewrite as_completed_next_new_futures by exact Hwf.
    destruct (get_tasks job); [contradiction|reflexivity]. }
  assert (Hinv : duo_inv job d).
  { subst d. apply duo_inv_run. rewrite Hout. unfold duo_inv. simpl.
    split; [done|]. split; [done|]. split; [by intros [?|?]|by intros [? _]]. }
  split; [exact Hout|]. split; [rewrite Hout; apply lookup_insert_eq|].
  split.
  { intros k Hk Hnew. rewrite Forall_forall in Hold. specialize (Hold k Hk).
    unfold new, new_futures in Hnew. apply elem_of_seq in Hnew. lia. }
  split.
  { simpl. unfold CommonDaskMixin._get_futures.
    rewrite get_futures_loop_ok by exact Hall. simpl.
    unfold DaskJobExecutor.run_job_loop. fold new. fold w'. subst new w'.
    rewrite as_completed_next_new_futures by exact Hwf.
    destruct (get_tasks job); [contradiction|reflexivity]. }
  destruct Hinv as (_ & _ & Hgone & Hboth).
  split; [exact Hboth|].
  intros Hend. split; [by apply Hgone|].
  intros ac w2 Hfull. apply exhausted_untracked_raises; [by apply Hgone|exact Hfull].
Qed.

Lemma second_run_job_replaces_entry_witness :
  let self := AsyncDaskJobExecutor.mk false (Some client0) {[ 1%positive := [0] ]} in
  let w := submit_all [task_submission (task_anywhere 0 10)] world0 in
  let out := AsyncDaskJobExecutor.run_job_next self
               (AsyncDaskJobExecutor.run_job self job_one) w in
  let d := AsyncDaskJobExecutor.duo_run drain_both
             (AsyncDaskJobExecutor.mk_duo out.1.1.1 out.1.1.2
                (GenSuspended job_one (mkAsCompleted [0] 0)) out.1.2
                [] [out.2]) in
  out.2 = Waiting
  /\ AsyncDaskJobExecutor._futures out.1.1.1 !! job_id job_one = Some [1]
  /\ AsyncDaskJobExecutor.outs_first d = [Yield (VResult 10); StopIteration]
  /\ AsyncDaskJobExecutor.outs_second d
     = [Waiting; Yield (VResult 10); Raised KeyError]
  /\ AsyncDaskJobExecutor._futures (AsyncDaskJobExecutor.duo_self d) !! job_id job_one
     = None.
Proof.
  intros self w out d.
  destruct (second_run_job_replaces_entry false client0 {[ 1%positive := [0] ]} [0] 0
              job_one w drain_both) as (H1 & H2 & _ & _ & _ & H6).
  - split; [apply NoDup_nil_2 | apply Forall_nil_2].
  - repeat constructor.
  - discriminate.
  - reflexivity.
  - repeat constructor.
  - fold self out in H1. split; [by rewrite H1|]. split; [exact H2|].
    split; [reflexivity|]. split; [reflexivity|].
    apply H6. left. reflexivity.
Defined.

(** ** What the pool does to the completion log *)

Lemma pool_event_submitted ev w : submitted (pool_event ev w) = submitted w.
Proof.
  destruct ev as [k|k]; simpl; destruct (submitted w !! k); try reflexivity;
    unfold complete; destruct (is_done w k); reflexivity.
Qed.

(** An event leaves the log alone or appends one entry, for a submitted
    future that was not in the log. *)
Lemma pool_event_completed ev w :
  completed (pool_event ev w) = completed w
  \/ exists k st s,
       completed (pool_event ev w) = completed w ++ [(k, st)]
       /\ (k ∉ (completed w).*1)
       /\ submitted w !! k = Some s
       /\ (ev = EvCancel k /\ st = Cancelled
           \/ ev = EvFinish k /\ st = status_of_call (call (sub_callable s))).
Proof.
  destruct ev as [k|k]; simpl; destruct (submitted w !! k) as [s|] eqn:Hs;
    try (left; reflexivity); unfold complete, is_done; case_bool_decide;
    try (left; reflexivity); right.
  - exists k, (status_of_call (call (sub_callable s))), s. simpl. auto 10.
  - exists k, Cancelled, s. simpl. auto 10.
Qed.

Lemma pool_event_wf ev w : pool_wf w -> pool_wf (pool_event ev w).
Proof.
  intros [Hnd Hlt]. unfold pool_wf. rewrite pool_event_submitted.
  destruct (pool_event_completed ev w) as [->|(k & st & s & -> & Hk & Hs & _)];
    [by split|].
  rewrite fmap_app. simpl. split.
  - apply NoDup_app. split; [exact Hnd|]. split; [|apply NoDup_singleton].
    intros x Hx ->%list_elem_of_singleton. contradiction.
  - apply Forall_app. split; [exact Hlt|]. apply Forall_singleton.
    by apply lookup_lt_Some in Hs.
Qed.

Lemma submit_all_wf subs w : pool_wf w -> pool_wf (submit_all subs w).
Proof.
  intros [Hnd Hlt]. split; [exact Hnd|]. simpl.
  eapply Forall_impl; [exact Hlt|]. intros k Hk. simpl in Hk.
  rewrite length_app. lia.
Qed.

(** The completion order of a stream only grows at its end. *)
Lemma completion_order_event ev w futures :
  exists new, completion_order (pool_event ev w) futures
              = completion_order w futures ++ new.
Proof.
  unfold completion_order.
  destruct (pool_event_completed ev w) as [->|(k & st & s & -> & _)].
  - exists []. by rewrite app_nil_r.
  - rewrite filter_app. by eexists.
Qed.

Lemma completion_order_keys_NoDup w futures :
  pool_wf w -> NoDup (completion_order w futures).*1.
Proof.
  intros [Hnd _]. unfold completion_order.
  induction (completed w) as [|d l IH]; [apply NoDup_nil_2|].
  simpl in Hnd. apply NoDup_cons in Hnd as [Hd Hnd].
  rewrite filter_cons. case_decide; [|by apply IH].
  simpl. apply NoDup_cons. split; [|by apply IH].
  intros Hin. apply Hd. apply list_elem_of_fmap in Hin as (d' & -> & Hd').
  apply list_elem_of_filter in Hd' as [_ Hd'].
  by apply list_elem_of_fmap_2.
Qed.

Lemma completion_order_keys_in w futures :
  Forall (fun k => k ∈ futures) (completion_order w futures).*1.
Proof.
  apply Forall_forall. intros k Hk.
  apply list_elem_of_fmap in Hk as (d & -> & Hd).
  unfold completion_order in Hd. by apply list_elem_of_filter in Hd as [Hd _].
Qed.

(** A stream hands out at most as many futures as it was given. *)
Lemma completion_order_length w futures :
  pool_wf w -> NoDup futures ->
  length (completion_order w futures) <= length futures.
Proof.
  intros Hwf Hnd. rewrite <- (length_fmap fst).
  apply submseteq_length, NoDup_submseteq.
  - by apply completion_order_keys_NoDup.
  - intros k Hk. pose proof (completion_order_keys_in w futures) as H.
    rewrite Forall_forall in H. by apply H.
Qed.

(** When all of them are done, the completion order is a rearrangement
    of the futures of the stream. *)
Lemma completion_order_full w futures :
  pool_wf w -> NoDup futures ->
  length futures <= length (completion_order w futures) ->
  (completion_order w futures).*1 ≡ₚ futures.
Proof.
  intros Hwf Hnd Hlen. apply submseteq_length_Permutation.
  - apply NoDup_submseteq; [by apply completion_order_keys_NoDup|].
    intros k Hk. pose proof (completion_order_keys_in w futures) as H.
    rewrite Forall_forall in H. by apply H.
  - by rewrite length_fmap.
Qed.

Lemma completion_order_all_done w futures :
  NoDup futures ->
  Forall (fun k => is_done w k = true) futures ->
  length futures <= length (completion_order w futures).
Proof.
  intros Hnd Hdone. rewrite <- (length_fmap fst (completion_order w futures)).
  apply submseteq_length, NoDup_submseteq; [exact Hnd|].
  intros k Hk. rewrite Forall_forall in Hdone.
  specialize (Hdone k Hk). unfold is_done in Hdone.
  apply bool_decide_eq_true in Hdone.
  apply list_elem_of_fmap in Hdone as (d & -> & Hd).
  apply list_elem_of_fmap_2. unfold completion_order.
  by apply list_elem_of_filter.
Qed.

(** ** The results of [run_job], in completion order *)

Lemma yields_snoc os o :
  yields (os ++ [o]) = yields os ++ match o with Yield v => [v] | _ => [] end.
Proof. unfold yields. rewrite omap_app. by destruct o. Qed.

Section run_job_results.

(** A job whose tasks all have workers and all return, run from a
    well-formed world [w0]. *)
Variable job : Job.
Variable w0 : World.
Hypothesis Hwf0 : pool_wf w0.
Hypothesis Hworkers : Forall has_workers (get_tasks job).
Hypothesis Hok : Forall (fun t => is_ok (task_call t) = true) (get_tasks job).

Lemma job_futures_NoDup : NoDup (job_futures job w0).
Proof. apply NoDup_seq. Qed.

Lemma job_futures_length : length (job_futures job w0) = length (get_tasks job).
Proof. apply length_seq. Qed.

Lemma job_futures_fresh k : k ∈ job_futures job w0 -> k < length (submitted w0) -> False.
Proof. unfold job_futures, new_futures. rewrite elem_of_seq. lia. Qed.

Lemma started_lookup w k s :
  started job w0 w -> k ∈ job_futures job w0 -> submitted w !! k = Some s ->
  exists t v, get_tasks job !! (k - length (submitted w0)) = Some t
              /\ task_call t = Ok v
              /\ status_of_call (call (sub_callable s)) = Finished v.
Proof.
  unfold started, job_futures, new_futures. intros -> Hk Hs.
  apply elem_of_seq in Hk.
  rewrite lookup_app_r in Hs by lia.
  rewrite list_lookup_fmap in Hs.
  destruct (get_tasks job !! (k - length (submitted w0))) as [t|] eqn:Ht;
    [|discriminate].
  injection Hs as <-. rewrite Forall_forall in Hok.
  specialize (Hok t (list_elem_of_lookup_2 _ _ _ Ht)).
  simpl. destruct (task_call t) as [v|e] eqn:Hcall; [|discriminate].
  by exists t, v.
Qed.

Import DaskJobExecutor.

Lemma stream_inv_event c ev :
  spares_job job w0 (Env ev) -> stream_inv job w0 c ->
  stream_inv job w0 (mk_config (pool_event ev (world c)) (gen c) (outs c)).
Proof.
  intros Hsp (Hwf & Hlog & Hnr & Hgen). unfold stream_inv. simpl.
  split; [by apply pool_event_wf|]. split; [|split; [exact Hnr|]].
  - destruct (pool_event_completed ev (world c))
      as [->|(k & st & s & -> & Hk & Hs & Hev)]; [exact Hlog|].
    apply Forall_app. split; [exact Hlog|]. apply Forall_singleton.
    intros Hin. simpl in *. destruct Hev as [[-> ->]|[-> ->]].
    + exfalso. by eapply Hsp.
    + destruct (gen c) as [j|j ac|].
      * destruct Hgen as (_ & _ & Hsub). rewrite Hsub in Hs.
        apply lookup_lt_Some in Hs. exfalso. by eapply job_futures_fresh.
      * destruct Hgen as (_ & Hst & _).
        destruct (started_lookup _ _ _ Hst Hin Hs) as (t & v & ? & ? & ?).
        by exists t, v.
      * destruct Hgen as (Hst & _).
        destruct (started_lookup _ _ _ Hst Hin Hs) as (t & v & ? & ? & ?).
        by exists t, v.
  - destruct (completion_order_event ev (world c) (job_futures job w0)) as [new Hnew].
    destruct (gen c) as [j|j ac|].
    + destruct Hgen as (-> & -> & Hsub). rewrite pool_event_submitted. auto.
    + destruct Hgen as (-> & Hst & Hfut & Hle & Hlen & Hys & Hns).
      unfold started. rewrite pool_event_submitted, Hnew.
      rewrite length_app, take_app_le by exact Hle.
      repeat split; auto. lia.
    + destruct Hgen as (Hst & Hlen & Hlys & Hys & Hs).
      unfold started. rewrite pool_event_submitted.
      assert (new = []) as ->.
      { pose proof (completion_order_length (pool_event ev (world c)) (job_futures job w0)
          (pool_event_wf ev _ Hwf) job_futures_NoDup) as Hb.
        rewrite Hnew, length_app, job_futures_length in Hb.
        destruct new; [reflexivity|]. simpl in Hb. lia. }
      rewrite app_nil_r in Hnew. rewrite Hnew. auto.
Qed.

Variable self : t.
Variable cl : Client.
Hypothesis Hclient : client self = Some cl.

Lemma results_logged_fresh w :
  pool_wf w -> submitted w = submitted w0 ->
  Forall (result_logged job w0) (completed w).
Proof.
  intros [_ Hlt] Hsub. apply Forall_forall. intros d Hd Hin.
  rewrite Forall_forall in Hlt.
  specialize (Hlt d.1 (list_elem_of_fmap_2 fst _ _ Hd)).
  rewrite Hsub in Hlt. exfalso. by eapply job_futures_fresh.
Qed.

(** The loop on a stream that satisfies the invariant. *)
Lemma stream_inv_loop w ac os :
  pool_wf w -> Forall (result_logged job w0) (completed w) ->
  Forall (fun o => is_raised o = false) os ->
  started job w0 w -> ac_futures ac = job_futures job w0 ->
  ac_taken ac <= length (completion_order w (job_futures job w0)) ->
  length (yields os) = ac_taken ac ->
  Finished <$> yields os
    = (take (ac_taken ac) (completion_order w (job_futures job w0))).*2 ->
  StopIteration ∉ os ->
  stream_inv job w0 (let out := run_job_loop job ac w in
              mk_config out.1.1 out.1.2 (os ++ [out.2])).
Proof.
  intros Hwf Hlog Hnr Hst Hfut Hle Hlen Hys Hns.
  unfold run_job_loop, as_completed_next. rewrite Hfut.
  pose proof (completion_order_length w (job_futures job w0) Hwf job_futures_NoDup) as Hb.
  rewrite job_futures_length in *.
  case_decide as Hfull.
  - unfold stream_inv. simpl. rewrite yields_snoc, app_nil_r.
    split; [exact Hwf|]. split; [exact Hlog|]. split.
    { apply Forall_app. split; [exact Hnr|]. by apply Forall_singleton. }
    split; [exact Hst|]. split; [lia|]. split; [lia|]. split.
    + rewrite Hys. by rewrite take_ge by lia.
    + apply elem_of_app. right. apply list_elem_of_here.
  - destruct (completion_order w (job_futures job w0) !! ac_taken ac) as [[k st]|] eqn:Hk.
    + assert (Hres : result_logged job w0 (k, st) /\ k ∈ job_futures job w0).
      { apply list_elem_of_lookup_2 in Hk. unfold completion_order in Hk.
        apply list_elem_of_filter in Hk as [Hin Hk]. split; [|exact Hin].
        rewrite Forall_forall in Hlog. by apply Hlog. }
      destruct Hres as [Hres Hin].
      destruct (Hres Hin) as (t & v & _ & _ & Hv). simpl in Hv. subst st.
      unfold stream_inv. simpl. rewrite yields_snoc.
      split; [exact Hwf|]. split; [exact Hlog|]. split.
      { apply Forall_app. split; [exact Hnr|]. by apply Forall_singleton. }
      split; [reflexivity|]. split; [exact Hst|]. split; [exact Hfut|].
      pose proof (lookup_lt_Some _ _ _ Hk) as Hlt.
      split; [lia|]. split; [rewrite length_app; simpl; lia|]. split.
      * rewrite (take_S_r _ _ _ Hk), !fmap_app, Hys. reflexivity.
      * intros Hin'. apply elem_of_app in Hin' as [Hin'|Hin']; [by apply Hns|].
        by apply list_elem_of_singleton in Hin'.
    + unfold stream_inv. simpl. rewrite yields_snoc, app_nil_r.
      split; [exact Hwf|]. split; [exact Hlog|]. split.
      { apply Forall_app. split; [exact Hnr|]. by apply Forall_singleton. }
      split; [reflexivity|]. split; [exact Hst|]. split; [exact Hfut|].
      split; [exact Hle|]. split; [exact Hlen|]. split; [exact Hys|].
      intros Hin'. apply elem_of_app in Hin' as [Hin'|Hin']; [by apply Hns|].
      by apply list_elem_of_singleton in Hin'.
Qed.

Lemma stream_inv_step c a :
  spares_job job w0 a -> stream_inv job w0 c -> stream_inv job w0 (step self c a).
Proof.
  intros Hsp Hinv. destruct a as [ev|]; [by apply stream_inv_event|].
  destruct Hinv as (Hwf & Hlog & Hnr & Hgen). unfold step.
  destruct c as [w g os]. simpl in *. destruct g as [j|j ac|]; simpl.
  - destruct Hgen as (-> & -> & Hsub).
    rewrite Hclient. unfold CommonDaskMixin._get_futures.
    rewrite get_futures_loop_ok by exact Hworkers. simpl.
    assert (Hnew : new_futures w (length (get_tasks job)) = job_futures job w0).
    { unfold job_futures, new_futures. by rewrite Hsub. }
    pose proof (stream_inv_loop (submit_all (task_submission <$> get_tasks job) w)
      (mkAsCompleted (new_futures w (length (get_tasks job))) 0) []) as H.
    simpl in H.
    destruct (run_job_loop job _ _) as [[w1 g1] o1]. simpl in H. apply H.
    + by apply submit_all_wf.
    + simpl. apply results_logged_fresh; [exact Hwf|exact Hsub].
    + constructor.
    + unfold started. simpl. by rewrite Hsub.
    + exact Hnew.
    + lia.
    + reflexivity.
    + reflexivity.
    + apply not_elem_of_nil.
  - destruct Hgen as (-> & Hst & Hfut & Hle & Hlen & Hys & Hns).
    pose proof (stream_inv_loop w ac os Hwf Hlog Hnr Hst Hfut Hle Hlen Hys Hns) as H.
    destruct (run_job_loop job ac w) as [[w1 g1] o1]. exact H.
  - destruct Hgen as (Hst & Hlen & Hlys & Hys & Hs).
    unfold stream_inv. simpl. rewrite yields_snoc, app_nil_r.
    split; [exact Hwf|]. split; [exact Hlog|]. split.
    { apply Forall_app. split; [exact Hnr|]. by apply Forall_singleton. }
    repeat split; auto. apply elem_of_app. by left.
Qed.

Lemma stream_inv_run script : forall c,
  Forall (spares_job job w0) script -> stream_inv job w0 c ->
  stream_inv job w0 (run self script c).
Proof.
  induction script as [|a script IH]; intros c Hsp Hinv; [exact Hinv|].
  apply Forall_cons in Hsp as [Ha Hsp]. simpl. apply IH; [exact Hsp|].
  by apply stream_inv_step.
Qed.

Lemma stream_inv_init :
  stream_inv job w0 (mk_config w0 (run_job self job) []).
Proof.
  unfold stream_inv. simpl. split; [exact Hwf0|]. split.
  - by apply results_logged_fresh.
  - split; [constructor|]. auto.
Qed.

(** *** Every task's result, once *)

Lemma result_of_job_futures :
  result_of job w0 <$> job_futures job w0 = task_call <$> get_tasks job.
Proof.
  apply list_eq. intros i. unfold job_futures, new_futures.
  rewrite !list_lookup_fmap.
  destruct (decide (i < length (get_tasks job))) as [Hi|Hi].
  - rewrite lookup_seq_lt by exact Hi. simpl. unfold result_of.
    replace (length (submitted w0) + i - length (submitted w0)) with i by lia.
    destruct (get_tasks job !! i) as [t|] eqn:Ht; [reflexivity|].
    apply lookup_ge_None in Ht. lia.
  - rewrite lookup_seq_ge by lia. by rewrite lookup_ge_None_2 by lia.
Qed.

Lemma logged_results (l : list (Future * Status)) : forall ys,
  Forall (result_logged job w0) l -> Forall (fun k => k ∈ job_futures job w0) l.*1 ->
  Finished <$> ys = l.*2 ->
  Ok <$> ys = result_of job w0 <$> l.*1.
Proof.
  induction l as [|[k st] l IH]; intros ys Hlog Hin Hys;
    destruct ys as [|y ys]; try discriminate; [reflexivity|].
  apply Forall_cons in Hlog as [Hd Hlog]. simpl in Hin.
  apply Forall_cons in Hin as [Hk Hin]. simpl in Hys.
  injection Hys as Hy Hys. simpl.
  destruct (Hd Hk) as (t & v & Ht & Hcall & Hst). simpl in *.
  f_equal; [|by apply IH].
  unfold result_of. rewrite Ht. simpl. rewrite Hcall. congruence.
Qed.

Lemma completion_order_logged w :
  Forall (result_logged job w0) (completed w) ->
  Forall (result_logged job w0) (completion_order w (job_futures job w0)).
Proof.
  intros Hlog. apply Forall_forall. intros d Hd.
  unfold completion_order in Hd. apply list_elem_of_filter in Hd as [_ Hd].
  rewrite Forall_forall in Hlog. by apply Hlog.
Qed.

Lemma closed_results c :
  stream_inv job w0 c -> gen c = GenClosed ->
  length (yields (outs c)) = length (get_tasks job)
  /\ Ok <$> yields (outs c) ≡ₚ task_call <$> get_tasks job.
Proof.
  intros (Hwf & Hlog & _ & Hgen) Hclosed. rewrite Hclosed in Hgen.
  destruct Hgen as (_ & Hlen & Hlys & Hys & _). split; [exact Hlys|].
  rewrite (logged_results (completion_order (world c) (job_futures job w0)));
    [|by apply completion_order_logged|apply completion_order_keys_in|exact Hys].
  rewrite <- result_of_job_futures. apply fmap_Permutation.
  apply completion_order_full; [exact Hwf|apply job_futures_NoDup|].
  rewrite job_futures_length. lia.
Qed.

(** *** The stream is drained *)

Lemma next_progress c :
  stream_inv job w0 c -> all_done job w0 c ->
  let c' := step self c Next in
  all_done job w0 c' /\ nexts_left job c' < max 1 (nexts_left job c).
Proof.
  intros (Hwf & Hlog & _ & Hgen) Hdone. unfold all_done, nexts_left, step in *.
  destruct c as [w g os]. simpl in *. destruct g as [j|j ac|]; simpl.
  - destruct Hgen as (-> & -> & Hsub).
    rewrite Hclient. unfold CommonDaskMixin._get_futures.
    rewrite get_futures_loop_ok by exact Hworkers. simpl.
    assert (Hnew : new_futures w (length (get_tasks job)) = job_futures job w0).
    { unfold job_futures, new_futures. by rewrite Hsub. }
    assert (Hnone : length (get_tasks job) = 0).
    { rewrite <- Hnew, <- (submit_all_nil w) in Hdone at 1.
      rewrite completion_order_new_futures in Hdone by exact Hwf.
      simpl in Hdone. lia. }
    unfold run_job_loop.
    rewrite as_completed_next_new_futures by exact Hwf.
    rewrite Hnone. simpl. split; lia.
  - destruct Hgen as (-> & Hst & Hfut & Hle & Hlen & Hys & Hns).
    unfold run_job_loop, as_completed_next. rewrite Hfut, job_futures_length.
    case_decide as Hfull; simpl; [split; [exact Hdone|lia]|].
    destruct (completion_order w (job_futures job w0) !! ac_taken ac) as [[k st]|] eqn:Hk.
    + destruct st; simpl; (split; [exact Hdone|lia]).
    + apply lookup_ge_None in Hk. lia.
  - split; [exact Hdone|lia].
Qed.

Lemma drain n : forall c,
  stream_inv job w0 c -> all_done job w0 c -> nexts_left job c <= n ->
  gen (run self (replicate n Next) c) = GenClosed.
Proof.
  induction n as [|n IH]; intros c Hinv Hdone Hleft.
  - simpl. unfold nexts_left in Hleft.
    destruct (gen c); [lia|lia|reflexivity].
  - change (gen (run self (replicate n Next) (step self c Next)) = GenClosed).
    destruct (next_progress c Hinv Hdone) as [Hdone' Hlt].
    apply IH; [|exact Hdone'|lia].
    apply stream_inv_step; [|exact Hinv]. intros k. discriminate.
Qed.

End run_job_results.

(** ** The asynchronous [run_job] follows the blocking one *)

Lemma as_completed_next_in w ac k v :
  as_completed_next w ac = SNext k v -> k ∈ ac_futures ac.
Proof.
  unfold as_completed_next. case_decide; [discriminate|].
  destruct (completion_order w (ac_futures ac) !! ac_taken ac) as [[k' st]|] eqn:Hk;
    [|discriminate].
  apply list_elem_of_lookup_2 in Hk. unfold completion_order in Hk.
  apply list_elem_of_filter in Hk as [Hin _]. simpl in Hin.
  destruct st; intros [= <- _] || discriminate; exact Hin.
Qed.

Section async_follows_blocking.

Variable job : Job.
Variable w0 : World.
Hypothesis Hworkers : Forall has_workers (get_tasks job).
Hypothesis Hok : Forall (fun t => is_ok (task_call t) = true) (get_tasks job).
Variable il : bool.
Variable cl : Client.

Lemma logged_not_cancelled w k :
  Forall (result_logged job w0) (completed w) -> k ∈ job_futures job w0 ->
  future_cancelled w k = false.
Proof.
  intros Hlog Hk. unfold future_cancelled. apply bool_decide_eq_false_2.
  intros Hc. rewrite Forall_forall in Hlog.
  destruct (Hlog _ Hc Hk) as (t & v & _ & _ & Hst). discriminate.
Qed.

Lemma async_step_follows c a :
  stream_inv job w0 (blocking_view c) -> tracked_while_suspended cl c ->
  blocking_view (AsyncDaskJobExecutor.step c (AsyncDaskJobExecutor.Act a))
    = DaskJobExecutor.step (DaskJobExecutor.mk il (Some cl)) (blocking_view c) a
  /\ tracked_while_suspended cl (AsyncDaskJobExecutor.step c (AsyncDaskJobExecutor.Act a)).
Proof.
  intros (Hwf & Hlog & _ & Hgen) [Hcl Htr].
  destruct a as [ev|]; [split; [reflexivity|by split]|].
  destruct c as [s w g os]. unfold blocking_view, tracked_while_suspended in *.
  simpl in *. destruct g as [j|j ac|]; simpl.
  - destruct Hgen as (-> & -> & Hsub). rewrite Hcl.
    unfold CommonDaskMixin._get_futures.
    rewrite get_futures_loop_ok by exact Hworkers. simpl.
    unfold AsyncDaskJobExecutor.run_job_loop, DaskJobExecutor.run_job_loop.
    rewrite as_completed_next_new_futures by exact Hwf.
    destruct (length (get_tasks job)); simpl.
    + rewrite lookup_insert_eq. simpl. auto.
    + rewrite lookup_insert_eq. split; [reflexivity|]. split; [exact Hcl|by eexists].
  - destruct Hgen as (-> & Hst & Hfut & _).
    unfold AsyncDaskJobExecutor.run_job_loop, DaskJobExecutor.run_job_loop.
    destruct (as_completed_next w ac) as [k v| | |] eqn:Hnext; simpl.
    + apply as_completed_next_in in Hnext. rewrite Hfut in Hnext.
      rewrite (logged_not_cancelled w k Hlog Hnext). simpl. auto.
    + destruct Htr as [x Hx]. rewrite Hx. simpl. auto.
    + auto.
    + auto.
  - auto.
Qed.

Lemma async_run_follows script : forall c,
  Forall (spares_job job w0) script ->
  stream_inv job w0 (blocking_view c) -> tracked_while_suspended cl c ->
  blocking_view (AsyncDaskJobExecutor.run (AsyncDaskJobExecutor.Act <$> script) c)
    = DaskJobExecutor.run (DaskJobExecutor.mk il (Some cl)) script (blocking_view c).
Proof.
  induction script as [|a script IH]; intros c Hsp Hinv Htr; [reflexivity|].
  apply Forall_cons in Hsp as [Ha Hsp].
  destruct (async_step_follows c a Hinv Htr) as [Hstep Htr'].
  change (blocking_view
            (AsyncDaskJobExecutor.run (AsyncDaskJobExecutor.Act <$> script)
               (AsyncDaskJobExecutor.step c (AsyncDaskJobExecutor.Act a)))
          = DaskJobExecutor.run (DaskJobExecutor.mk il (Some cl)) script
              (DaskJobExecutor.step (DaskJobExecutor.mk il (Some cl)) (blocking_view c) a)).
  rewrite <- Hstep. apply IH; [exact Hsp| |exact Htr'].
  rewrite Hstep. eapply stream_inv_step; eauto.
Qed.

End async_follows_blocking.

(** C2.  A job with [N] tasks is run by one consumer: no task of the job
    declares an empty location sequence, every task returns, and the
    executor has a client.  The consumer's [next] calls are interleaved
    with pool events that cancel no future of the job, and nothing else
    uses the executor meanwhile (no [cancel_job], no second [run_job] of
    the job).  Then the consumer of the asynchronous [run_job] sees what
    the consumer of the blocking one sees; no [next] raises; the results
    yielded so far are the logged results of the first futures of the job
    in completion order, not in submission order; when the sequence has
    ended, exactly [N] results were yielded, each the result of exactly
    one task of the job; and the sequence does end: once all futures of
    the job are done, [N + 1] further [next] calls end it with all [N]
    results. *)
Theorem run_job_results_in_completion_order (il : bool) (cl : Client)
    (fs : gmap positive (list Future)) (job : Job) (w0 : World)
    (script : list action) :
  pool_wf w0 ->
  Forall has_workers (get_tasks job) ->
  Forall (fun t => is_ok (task_call t) = true) (get_tasks job) ->
  Forall (spares_job job w0) script ->
  let N := length (get_tasks job) in
  let blocking := DaskJobExecutor.mk il (Some cl) in
  let async := AsyncDaskJobExecutor.mk il (Some cl) fs in
  let c := DaskJobExecutor.run blocking script
             (DaskJobExecutor.mk_config w0 (DaskJobExecutor.run_job blocking job) []) in
  let ca := AsyncDaskJobExecutor.run (AsyncDaskJobExecutor.Act <$> script)
              (AsyncDaskJobExecutor.mk_config async w0
                 (AsyncDaskJobExecutor.run_job async job) []) in
  let ys := yields (DaskJobExecutor.outs c) in
  let order := completion_order (DaskJobExecutor.world c) (job_futures job w0) in
  blocking_view ca = c
  /\ Forall (fun o => is_raised o = false) (DaskJobExecutor.outs c)
  /\ Finished <$> ys = (take (length ys) order).*2
  /\ (StopIteration ∈ DaskJobExecutor.outs c ->
      length ys = N /\ Ok <$> ys ≡ₚ task_call <$> get_tasks job)
  /\ (Forall (fun k => is_done (DaskJobExecutor.world c) k = true) (job_futures job w0) ->
      let c' := DaskJobExecutor.run blocking (replicate (S N) Next) c in
      StopIteration ∈ DaskJobExecutor.outs c'
      /\ length (yields (DaskJobExecutor.outs c')) = N).
Proof.
  intros Hwf0 Hworkers Hok Hsp N blocking async c ca ys order.
  assert (Hinit : stream_inv job w0
            (DaskJobExecutor.mk_config w0 (DaskJobExecutor.run_job blocking job) []))
    by (by apply stream_inv_init).
  assert (Hinv : stream_inv job w0 c)
    by (eapply stream_inv_run; eauto).
  split.
  { subst ca c. rewrite (async_run_follows job w0 Hworkers Hok il cl); auto.
    split; [reflexivity|exact I]. }
  pose proof Hinv as (Hwf & Hlog & Hnr & Hgen). fold order ys in Hgen.
  split; [exact Hnr|]. split; [|split].
  - destruct (DaskJobExecutor.gen c) as [j|j ac|].
    + destruct Hgen as (_ & Houts & _). subst ys. by rewrite Houts.
    + destruct Hgen as (_ & _ & _ & _ & Hlen & Hys & _). by rewrite Hlen.
    + destruct Hgen as (_ & Hlen & Hlys & Hys & _).
      rewrite take_ge by lia. exact Hys.
  - intros Hstop. apply closed_results with (w0 := w0); [exact Hinv|].
    destruct (DaskJobExecutor.gen c) as [j|j ac|]; [| |reflexivity].
    + destruct Hgen as (_ & Houts & _). rewrite Houts in Hstop.
      by apply elem_of_nil in Hstop.
    + destruct Hgen as (_ & _ & _ & _ & _ & _ & Hns). contradiction.
  - intros Hdone c'.
    assert (Hinv' : stream_inv job w0 c').
    { eapply stream_inv_run; eauto.
      apply Forall_forall. intros a Ha%elem_of_replicate k.
      destruct Ha as [-> _]. discriminate. }
    assert (Hclosed : DaskJobExecutor.gen c' = GenClosed).
    { eapply drain; eauto.
      - unfold all_done. rewrite <- (job_futures_length job w0).
        apply completion_order_all_done; [apply job_futures_NoDup|exact Hdone].
      - unfold nexts_left. fold N. destruct (DaskJobExecutor.gen c); lia. }
    split; [|by apply (closed_results job w0 c' Hinv' Hclosed)].
    destruct Hinv' as (_ & _ & _ & Hgen'). rewrite Hclosed in Hgen'.
    by destruct Hgen' as (_ & _ & _ & _ & Hs).
Qed.

Lemma run_job_results_in_completion_order_witness :
  let c := DaskJobExecutor.run sync0 reverse_completion
             (DaskJobExecutor.mk_config world0
                (DaskJobExecutor.run_job sync0 job_three) []) in
  let ca := AsyncDaskJobExecutor.run (AsyncDaskJobExecutor.Act <$> reverse_completion)
              (AsyncDaskJobExecutor.mk_config async0 world0
                 (AsyncDaskJobExecutor.run_job async0 job_three) []) in
  DaskJobExecutor.outs c
    = [Waiting; Yield (VResult 2); Yield (VResult 1); Waiting;
       Yield (VResult 0); StopIteration]
  /\ blocking_view ca = c
  /\ length (yields (DaskJobExecutor.outs c)) = 3
  /\ Ok <$> yields (DaskJobExecutor.outs c) ≡ₚ task_call <$> get_tasks job_three.
Proof.
  intros c ca. split; [reflexivity|].
  destruct (run_job_results_in_completion_order false client0 ∅ job_three
              world0 reverse_completion) as (H1 & _ & _ & H4 & _).
  - exact world0_wf.
  - repeat constructor.
  - repeat constructor.
  - repeat (constructor; [intros k Hk; discriminate|]). constructor.
  - split; [exact H1|]. apply H4.
    vm_compute. do 5 apply list_elem_of_further. apply list_elem_of_here.
Defined.


(** * Further properties *)

(** ** What [_get_futures] does to the pool *)

Section get_futures_more.
Import CommonDaskMixin.

(** Whatever the client and the tasks, the loop submits a prefix of the
    tasks, in their order, and touches nothing else; when it returns, it
    submitted them all and returns their futures. *)
Lemma get_futures_loop_world client tasks : forall futures w w' r,
  _get_futures_loop client tasks futures w = (w', r) ->
  exists pre,
    pre `prefix_of` (task_submission <$> tasks)
    /\ w' = submit_all pre w
    /\ (forall fs, r = Ok fs ->
          pre = task_submission <$> tasks
          /\ fs = futures ++ new_futures w (length tasks)).
Proof.
  induction tasks as [|t tasks IH]; intros futures w w' r; simpl.
  - intros [= <- <-]. exists []. split; [apply prefix_nil|].
    split; [by rewrite submit_all_nil|].
    intros fs [= <-]. unfold new_futures. simpl. by rewrite app_nil_r.
  - destruct (no_workers (get_locations t)).
    { intros [= <- <-]. exists []. split; [apply prefix_nil|].
      split; [by rewrite submit_all_nil|]. discriminate. }
    destruct client as [c|]; simpl.
    + unfold bind, get, modify, ret. simpl.
      fold (submit_all [mkSubmission (TaskCall t) (get_locations t)] w).
      intros Hloop. destruct (IH _ _ _ _ Hloop) as (pre & Hpre & Hw & Hok).
      exists (task_submission t :: pre). split; [by apply prefix_cons|].
      split; [by rewrite Hw, submit_all_cons|].
      intros fs Hfs. destruct (Hok fs Hfs) as [-> ->]. split; [reflexivity|].
      unfold new_futures, submit_all. simpl. rewrite length_app. simpl.
      rewrite <- app_assoc. simpl. do 3 f_equal. lia.
    + intros [= <- <-]. exists []. split; [apply prefix_nil|].
      split; [by rewrite submit_all_nil|]. discriminate.
Qed.

End get_futures_more.

(** X1.  For a job whose tasks all have workers, on an executor with a
    client, [_get_futures] returns one future per task, in task order; the
    future at position [i] is the handle of a submission of task [i] that
    is constrained to the locations of that task; the futures are distinct
    and the submissions that were in the pool before are untouched. *)
Theorem get_futures_dispatches_in_order (c : Client) (job : Job) (w : World) :
  Forall has_workers (get_tasks job) ->
  let out := CommonDaskMixin._get_futures (Some c) job w in
  exists futures,
    out.2 = Ok futures
    /\ length futures = length (get_tasks job)
    /\ NoDup futures
    /\ (forall i task, get_tasks job !! i = Some task ->
          exists k, futures !! i = Some k
                    /\ submitted out.1 !! k
                       = Some (mkSubmission (TaskCall task) (get_locations task)))
    /\ (forall k s, submitted w !! k = Some s -> submitted out.1 !! k = Some s).
Proof.
  intros Hall out. subst out. unfold CommonDaskMixin._get_futures.
  rewrite get_futures_loop_ok by exact Hall. simpl.
  exists (new_futures w (length (get_tasks job))). unfold new_futures.
  split; [reflexivity|]. split; [apply length_seq|]. split; [apply NoDup_seq|].
  split.
  - intros i task Hi. exists (length (submitted w) + i).
    pose proof (lookup_lt_Some _ _ _ Hi) as Hlt.
    split; [by apply lookup_seq_lt|].
    rewrite lookup_app_r by lia.
    replace (length (submitted w) + i - length (submitted w)) with i by lia.
    rewrite list_lookup_fmap, Hi. reflexivity.
  - intros k s Hk. rewrite lookup_app_l; [exact Hk|].
    by apply lookup_lt_Some in Hk.
Qed.

Lemma get_futures_dispatches_in_order_witness :
  let out := CommonDaskMixin._get_futures (Some client0) job_three world0 in
  exists futures,
    out.2 = Ok futures
    /\ length futures = length (get_tasks job_three)
    /\ NoDup futures
    /\ (forall i task, get_tasks job_three !! i = Some task ->
          exists k, futures !! i = Some k
                    /\ submitted out.1 !! k
                       = Some (mkSubmission (TaskCall task) (get_locations task)))
    /\ (forall k s, submitted world0 !! k = Some s -> submitted out.1 !! k = Some s).
Proof.
  apply (get_futures_dispatches_in_order client0 job_three world0).
  repeat constructor.
Defined.

(** ** What a [next] on [run_job] does to the world and to the tracker *)

(** The loops leave the world alone. *)
Lemma blocking_loop_world job ac w :
  (DaskJobExecutor.run_job_loop job ac w).1.1 = w.
Proof.
  unfold DaskJobExecutor.run_job_loop. by destruct (as_completed_next w ac).
Qed.

(** X2.  A [next] on [run_job], in either executor, changes the world only
    on its first call and only by submitting tasks of its own job, a
    prefix of them in task order: it never cancels, completes, closes or
    logs anything, and a generator that was started leaves the world as
    it is. *)
Theorem run_job_next_only_submits (job : Job) (w : World) :
  (forall self, exists pre,
     pre `prefix_of` (task_submission <$> get_tasks job)
     /\ (DaskJobExecutor.run_job_next self (GenCreated job) w).1.1
        = submit_all pre w)
  /\ (forall self, exists pre,
     pre `prefix_of` (task_submission <$> get_tasks job)
     /\ (AsyncDaskJobExecutor.run_job_next self (GenCreated job) w).1.1.2
        = submit_all pre w)
  /\ (forall self ac,
     (DaskJobExecutor.run_job_next self (GenSuspended job ac) w).1.1 = w
     /\ (DaskJobExecutor.run_job_next self GenClosed w).1.1 = w)
  /\ (forall self ac,
     (AsyncDaskJobExecutor.run_job_next self (GenSuspended job ac) w).1.1.2 = w
     /\ (AsyncDaskJobExecutor.run_job_next self GenClosed w).1.1.2 = w).
Proof.
  split; [|split; [|split]].
  - intros self. simpl. unfold CommonDaskMixin._get_futures.
    destruct (CommonDaskMixin._get_futures_loop _ _ _ _) as [w' r] eqn:Hloop.
    destruct (get_futures_loop_world _ _ _ _ _ _ Hloop) as (pre & Hpre & -> & _).
    exists pre. split; [exact Hpre|].
    destruct r; [apply blocking_loop_world|reflexivity].
  - intros self. simpl. unfold CommonDaskMixin._get_futures.
    destruct (CommonDaskMixin._get_futures_loop _ _ _ _) as [w' r] eqn:Hloop.
    destruct (get_futures_loop_world _ _ _ _ _ _ Hloop) as (pre & Hpre & -> & _).
    exists pre. split; [exact Hpre|].
    destruct r; [|reflexivity]. apply run_job_loop_effect.
  - intros self ac. split; [apply blocking_loop_world|reflexivity].
  - intros self ac. split; [|reflexivity]. simpl. apply run_job_loop_effect.
Qed.

(** X3.  A [next] on the asynchronous [run_job] of one job leaves the
    tracker entries of all other jobs, the client and the local flag of
    the executor as they are. *)
Theorem run_job_next_other_jobs (self : AsyncDaskJobExecutor.t)
    (g : generator Job) (w : World) (k : positive) :
  (forall j, gen_job g = Some j -> job_id j <> k) ->
  let self' := (AsyncDaskJobExecutor.run_job_next self g w).1.1.1 in
  AsyncDaskJobExecutor._futures self' !! k = AsyncDaskJobExecutor._futures self !! k
  /\ AsyncDaskJobExecutor.client self' = AsyncDaskJobExecutor.client self
  /\ AsyncDaskJobExecutor.is_local self' = AsyncDaskJobExecutor.is_local self.
Proof.
  intros Hother self'. subst self'.
  assert (Hloop : forall s j ac w1, job_id j <> k ->
    let s' := (AsyncDaskJobExecutor.run_job_loop s j ac w1).1.1.1 in
    AsyncDaskJobExecutor._futures s' !! k = AsyncDaskJobExecutor._futures s !! k
    /\ AsyncDaskJobExecutor.client s' = AsyncDaskJobExecutor.client s
    /\ AsyncDaskJobExecutor.is_local s' = AsyncDaskJobExecutor.is_local s).
  { intros s j ac w1 Hj. pose proof (run_job_loop_effect s j ac w1) as H.
    destruct (AsyncDaskJobExecutor.run_job_loop s j ac w1) as [[[s1 w2] g1] o1].
    simpl in *. destruct H as [_ H].
    destruct o1; try (destruct H as [-> _]; auto).
    destruct H as (_ & -> & _). simpl.
    split; [by apply lookup_delete_ne|auto]. }
  destruct g as [j|j ac|]; simpl; [| |auto].
  - specialize (Hother j eq_refl).
    destruct (CommonDaskMixin._get_futures _ _ _) as [w1 [futures|e]]; [|auto].
    destruct (Hloop (AsyncDaskJobExecutor.set_futures (insert (job_id j) futures) self)
                j (mkAsCompleted futures 0) w1 Hother) as (H1 & H2 & H3).
    rewrite H1, H2, H3. simpl. split; [by apply lookup_insert_ne|auto].
  - by apply Hloop, Hother.
Qed.

Lemma run_job_next_other_jobs_witness :
  let self := AsyncDaskJobExecutor.mk false (Some client0) {[ 3%positive := [7] ]} in
  let self' := (AsyncDaskJobExecutor.run_job_next self (GenCreated job_one) world0).1.1.1 in
  AsyncDaskJobExecutor._futures self' !! 3%positive = Some [7]
  /\ AsyncDaskJobExecutor._futures self' !! 1%positive = Some [0].
Proof.
  intros self self'. split; [|reflexivity].
  destruct (run_job_next_other_jobs self (GenCreated job_one) world0 3%positive)
    as (H & _ & _).
  - intros j [= <-]. discriminate.
  - exact H.
Defined.

(** ** [cancel_job] while and after [run_job] *)

Lemma cancel_job_submitted self job w :
  submitted (AsyncDaskJobExecutor.cancel_job self job w).1 = submitted w.
Proof.
  unfold AsyncDaskJobExecutor.cancel_job, client_cancel.
  destruct (_ !! _); [|reflexivity].
  by destruct (AsyncDaskJobExecutor.client self).
Qed.

Section entry_of_running_job.
Import AsyncDaskJobExecutor.

Variable job : Job.
Variable w0 : World.
Variable cl0 : option Client.

Lemma entry_inv_loop c s ac :
  client s = cl0 ->
  ac_futures ac = job_futures job w0 ->
  _futures s !! job_id job = Some (job_futures job w0) ->
  ~ cancelled_seen c ->
  entry_inv job w0 cl0
    (let out := run_job_loop s job ac (world c) in
     mk_config out.1.1.1 out.1.1.2 out.1.2 (outs c ++ [out.2])).
Proof.
  intros Hcl Hfut Hentry Hns.
  pose proof (run_job_loop_effect s job ac (world c)) as H.
  destruct (run_job_loop s job ac (world c)) as [[[s1 w1] g1] o1].
  simpl in *. destruct H as [-> H].
  destruct o1 as [v| |e|].
  - destruct H as [-> ->]. unfold entry_inv. simpl.
    split; [exact Hcl|]. split; [reflexivity|]. split; [exact Hfut|].
    split; [exact Hentry|].
    intros Hc. apply Hns. revert Hc. by apply cancelled_seen_snoc.
  - destruct H as (_ & -> & ->). unfold entry_inv. simpl.
    split; [exact Hcl|].
    intros Hc. exfalso. apply Hns. revert Hc. by apply cancelled_seen_snoc.
  - destruct H as [-> ->]. unfold entry_inv. simpl.
    split; [exact Hcl|]. intros _. exact Hentry.
  - destruct H as [-> ->]. unfold entry_inv. simpl.
    split; [exact Hcl|]. split; [reflexivity|]. split; [exact Hfut|].
    split; [exact Hentry|].
    intros Hc. apply Hns. revert Hc. by apply cancelled_seen_snoc.
Qed.

Lemma entry_inv_step c a : entry_inv job w0 cl0 c -> entry_inv job w0 cl0 (step c a).
Proof.
  intros [Hcl Hinv]. destruct a as [[ev|]|j].
  - split; [exact Hcl|]. simpl. destruct (gen c); try exact Hinv.
    destruct Hinv as (-> & Hsub & Hns). by rewrite pool_event_submitted.
  - destruct c as [s w g os]. simpl in *. unfold step. simpl.
    destruct g as [j|j ac|]; simpl.
    + destruct Hinv as (-> & Hsub & Hns).
      unfold CommonDaskMixin._get_futures.
      destruct (CommonDaskMixin._get_futures_loop (client s) (get_tasks job) [] w)
        as [w1 [futures|e]] eqn:Hget.
      * destruct (get_futures_loop_world _ _ _ _ _ _ Hget) as (pre & _ & _ & Hok).
        destruct (Hok futures eq_refl) as [_ Hfs]. simpl in Hfs.
        assert (Hfut : futures = job_futures job w0).
        { rewrite Hfs. unfold job_futures, new_futures. by rewrite Hsub. }
        pose proof (entry_inv_loop (mk_config s w1 (GenCreated job) os)
          (set_futures (insert (job_id job) futures) s)
          (mkAsCompleted futures 0)) as H. simpl in H.
        destruct (run_job_loop _ job _ w1) as [[[s2 w2] g2] o2]. simpl in H.
        apply H; [exact Hcl|exact Hfut| |exact Hns].
        rewrite lookup_insert_eq. by rewrite Hfut.
      * unfold entry_inv. simpl. split; [exact Hcl|].
        intros Hc. exfalso. apply Hns. revert Hc.
        apply (cancelled_seen_snoc (mk_config s w (GenCreated job) os)).
        intros [= ->]. by eapply get_futures_loop_errors.
    + destruct Hinv as (-> & Hfut & Hentry & Hns).
      pose proof (entry_inv_loop (mk_config s w (GenSuspended job ac) os)
        s ac Hcl Hfut Hentry Hns) as H. simpl in H.
      destruct (run_job_loop s job ac w) as [[[s2 w2] g2] o2]. exact H.
    + unfold entry_inv. simpl. split; [exact Hcl|].
      intros Hc. apply Hinv. revert Hc.
      apply (cancelled_seen_snoc (mk_config s w GenClosed os)). discriminate.
  - split; [exact Hcl|]. simpl. destruct (gen c); try exact Hinv.
    destruct Hinv as (-> & Hsub & Hns). by rewrite cancel_job_submitted.
Qed.

Lemma entry_inv_run script : forall c,
  entry_inv job w0 cl0 c -> entry_inv job w0 cl0 (run script c).
Proof.
  induction script as [|a script IH]; intros c Hinv; [exact Hinv|].
  simpl. apply IH. by apply entry_inv_step.
Qed.

Lemma entry_inv_init self :
  client self = cl0 ->
  entry_inv job w0 cl0 (mk_config self w0 (run_job self job) []).
Proof.
  intros Hcl. split; [exact Hcl|]. simpl. split; [reflexivity|].
  split; [reflexivity|]. apply not_elem_of_nil.
Qed.

End entry_of_running_job.

(** X4.  Whatever the pool does and however often [cancel_job] was called
    before: while the generator of the asynchronous [run_job(job)] is
    suspended, [cancel_job(job)] sends the pool one cancellation request,
    for exactly the futures of the tasks of that job, and changes nothing
    else. *)
Theorem cancel_job_cancels_the_job (script : list AsyncDaskJobExecutor.async_action)
    (il : bool) (cl : Client) (fs : gmap positive (list Future))
    (job : Job) (w0 : World) :
  let self := AsyncDaskJobExecutor.mk il (Some cl) fs in
  let c := AsyncDaskJobExecutor.run script
             (AsyncDaskJobExecutor.mk_config self w0
                (AsyncDaskJobExecutor.run_job self job) []) in
  forall j ac,
    AsyncDaskJobExecutor.gen c = GenSuspended j ac ->
    ac_futures ac = new_futures w0 (length (get_tasks job))
    /\ AsyncDaskJobExecutor.cancel_job (AsyncDaskJobExecutor.self_ c) job
         (AsyncDaskJobExecutor.world c)
       = (set_cancel_requests
            (fun l => l ++ [new_futures w0 (length (get_tasks job))])
            (AsyncDaskJobExecutor.world c), Ok tt).
Proof.
  intros self c j ac Hgen.
  assert (Hinv : entry_inv job w0 (Some cl) c).
  { apply entry_inv_run. by apply entry_inv_init. }
  destruct Hinv as [Hcl Hinv]. rewrite Hgen in Hinv.
  destruct Hinv as (_ & Hfut & Hentry & _). split; [exact Hfut|].
  unfold AsyncDaskJobExecutor.cancel_job. rewrite Hentry, Hcl. reflexivity.
Qed.

Lemma cancel_job_cancels_the_job_witness :
  let c := AsyncDaskJobExecutor.run
             [AsyncDaskJobExecutor.Act Next;
              AsyncDaskJobExecutor.Act (Env (EvFinish 1));
              AsyncDaskJobExecutor.Act Next]
             (AsyncDaskJobExecutor.mk_config async0 world0
                (AsyncDaskJobExecutor.run_job async0 job_three) []) in
  AsyncDaskJobExecutor.outs c = [Waiting; Yield (VResult 1)]
  /\ cancel_requests
       (AsyncDaskJobExecutor.cancel_job (AsyncDaskJobExecutor.self_ c) job_three
          (AsyncDaskJobExecutor.world c)).1
     = [[0; 1; 2]].
Proof.
  intros c. split; [reflexivity|].
  destruct (cancel_job_cancels_the_job
              [AsyncDaskJobExecutor.Act Next;
               AsyncDaskJobExecutor.Act (Env (EvFinish 1));
               AsyncDaskJobExecutor.Act Next]
              false client0 ∅ job_three world0 job_three
              (mkAsCompleted [0; 1; 2] 1)) as [_ H].
  - reflexivity.
  - exact (f_equal (fun r => cancel_requests r.1) H).
Defined.

(** X5.  Once a [next] on the asynchronous [run_job(job)] has raised the
    cancellation error, the entry of the job still holds the futures of
    its tasks: a later [cancel_job(job)] is no no-op, it sends the pool
    another cancellation request for those futures. *)
Theorem cancel_job_after_cancellation (script : list AsyncDaskJobExecutor.async_action)
    (il : bool) (cl : Client) (fs : gmap positive (list Future))
    (job : Job) (w0 : World) :
  let self := AsyncDaskJobExecutor.mk il (Some cl) fs in
  let c := AsyncDaskJobExecutor.run script
             (AsyncDaskJobExecutor.mk_config self w0
                (AsyncDaskJobExecutor.run_job self job) []) in
  Raised JobCancelledError ∈ AsyncDaskJobExecutor.outs c ->
  AsyncDaskJobExecutor._futures (AsyncDaskJobExecutor.self_ c) !! job_id job
    = Some (new_futures w0 (length (get_tasks job)))
  /\ AsyncDaskJobExecutor.cancel_job (AsyncDaskJobExecutor.self_ c) job
       (AsyncDaskJobExecutor.world c)
     = (set_cancel_requests
          (fun l => l ++ [new_futures w0 (length (get_tasks job))])
          (AsyncDaskJobExecutor.world c), Ok tt).
Proof.
  intros self c Hseen.
  assert (Hinv : entry_inv job w0 (Some cl) c).
  { apply entry_inv_run. by apply entry_inv_init. }
  destruct Hinv as [Hcl Hinv]. fold (cancelled_seen c) in Hseen.
  assert (Hentry : AsyncDaskJobExecutor._futures (AsyncDaskJobExecutor.self_ c)
                     !! job_id job = Some (job_futures job w0)).
  { destruct (AsyncDaskJobExecutor.gen c).
    - destruct Hinv as (_ & _ & Hns). contradiction.
    - destruct Hinv as (_ & _ & _ & Hns). contradiction.
    - by apply Hinv. }
  split; [exact Hentry|].
  unfold AsyncDaskJobExecutor.cancel_job. rewrite Hentry, Hcl. reflexivity.
Qed.

Lemma cancel_job_after_cancellation_witness :
  let c := AsyncDaskJobExecutor.run
             [AsyncDaskJobExecutor.Act Next;
              AsyncDaskJobExecutor.CancelJob job_one;
              AsyncDaskJobExecutor.Act (Env (EvCancel 0));
              AsyncDaskJobExecutor.Act Next]
             (AsyncDaskJobExecutor.mk_config async0 world0
                (AsyncDaskJobExecutor.run_job async0 job_one) []) in
  cancel_requests
    (AsyncDaskJobExecutor.cancel_job (AsyncDaskJobExecutor.self_ c) job_one
       (AsyncDaskJobExecutor.world c)).1
  = [[0]; [0]].
Proof.
  intros c.
  destruct (cancel_job_after_cancellation
              [AsyncDaskJobExecutor.Act Next;
               AsyncDaskJobExecutor.CancelJob job_one;
               AsyncDaskJobExecutor.Act (Env (EvCancel 0));
               AsyncDaskJobExecutor.Act Next]
              false client0 ∅ job_one world0) as [_ H].
  - vm_compute. apply list_elem_of_further, list_elem_of_here.
  - exact (f_equal (fun r => cancel_requests r.1) H).
Defined.

(** X6.  When two generators of the asynchronous [run_job] of the same
    job are in flight, the one whose stream ends second does not end with
    [StopIteration]: the first has deleted the entry of the job, and the
    [del] of the second raises [KeyError]. *)
Theorem second_exhaustion_raises_KeyError (self self' : AsyncDaskJobExecutor.t)
    (job : Job) (g g' : generator Job) (w w' : World) :
  live_on job g ->
  AsyncDaskJobExecutor.run_job_next self g w = (self', w', g', StopIteration) ->
  forall ac w2,
    length (ac_futures ac) <= ac_taken ac ->
    AsyncDaskJobExecutor.run_job_next self' (GenSuspended job ac) w2
    = (self', w2, GenClosed, Raised KeyError).
Proof.
  intros Hlive Hnext ac w2 Hfull.
  assert (Hgone : AsyncDaskJobExecutor._futures self' !! job_id job = None).
  { destruct g as [j|j a|]; simpl in Hlive; [subst j|subst j|contradiction];
      simpl in Hnext.
    - destruct (CommonDaskMixin._get_futures _ _ _) as [w1 [futures|e]];
        [|discriminate].
      pose proof (run_job_loop_effect
        (AsyncDaskJobExecutor.set_futures (insert (job_id job) futures) self)
        job (mkAsCompleted futures 0) w1) as H.
      rewrite Hnext in H. simpl in H. destruct H as (_ & _ & -> & _).
      apply lookup_set_futures_delete.
    - pose proof (run_job_loop_effect self job a w) as H.
      rewrite Hnext in H. simpl in H. destruct H as (_ & _ & -> & _).
      apply lookup_set_futures_delete. }
  simpl. unfold AsyncDaskJobExecutor.run_job_loop, as_completed_next.
  rewrite decide_True by exact Hfull. by rewrite Hgone.
Qed.

Lemma second_exhaustion_raises_KeyError_witness :
  let self := AsyncDaskJobExecutor.mk false (Some client0) {[ 1%positive := [1] ]} in
  let w := pool_event (EvFinish 1) (pool_event (EvFinish 0)
             (submit_all [task_submission (task_anywhere 0 10);
                          task_submission (task_anywhere 0 10)] world0)) in
  let first := AsyncDaskJobExecutor.run_job_next self
                 (GenSuspended job_one (mkAsCompleted [0] 1)) w in
  first.2 = StopIteration
  /\ AsyncDaskJobExecutor.run_job_next first.1.1.1
       (GenSuspended job_one (mkAsCompleted [1] 1)) w
     = (first.1.1.1, w, GenClosed, Raised KeyError).
Proof.
  intros self w first. split; [reflexivity|].
  apply (second_exhaustion_raises_KeyError self first.1.1.1 job_one
           (GenSuspended job_one (mkAsCompleted [0] 1)) first.1.2 w first.1.1.2).
  - reflexivity.
  - reflexivity.
  - simpl. lia.
Defined.

(** ** The blocking [run_job] in any pool *)

Section payloads.
Import DaskJobExecutor.

Variable job : Job.
Variable w0 : World.
Variable self : t.

Lemma payload_inv_loop j w ac os :
  pool_wf w -> ac_futures ac = job_futures job w0 ->
  length (yields os) = ac_taken ac ->
  ac_taken ac <= length (completion_order w (job_futures job w0)) ->
  Some <$> yields os
    = payload <$> take (ac_taken ac) (completion_order w (job_futures job w0)) ->
  payload_inv job w0 (let out := run_job_loop j ac w in
                      mk_config out.1.1 out.1.2 (os ++ [out.2])).
Proof.
  intros Hwf Hfut Hlen Hle Hys.
  unfold run_job_loop, as_completed_next. rewrite Hfut.
  case_decide as Hfull.
  { unfold payload_inv. simpl. rewrite yields_snoc, app_nil_r.
    split; [exact Hwf|]. split; [lia|]. by rewrite Hlen. }
  destruct (completion_order w (job_futures job w0) !! ac_taken ac)
    as [[k st]|] eqn:Hk.
  - pose proof (lookup_lt_Some _ _ _ Hk) as Hlt.
    destruct st as [v|e|]; unfold payload_inv; simpl; rewrite yields_snoc.
    + split; [exact Hwf|]. split; [exact Hfut|].
      split; [rewrite length_app; simpl; lia|]. split; [lia|].
      by rewrite (take_S_r _ _ _ Hk), !fmap_app, Hys.
    + rewrite app_nil_r. split; [exact Hwf|]. split; [lia|]. by rewrite Hlen.
    + split; [exact Hwf|]. split; [exact Hfut|].
      split; [rewrite length_app; simpl; lia|]. split; [lia|].
      by rewrite (take_S_r _ _ _ Hk), !fmap_app, Hys.
  - unfold payload_inv. simpl. rewrite yields_snoc, app_nil_r.
    split; [exact Hwf|]. auto.
Qed.

Lemma payload_inv_step c a : payload_inv job w0 c -> payload_inv job w0 (step self c a).
Proof.
  intros [Hwf Hgen]. destruct a as [ev|].
  - unfold payload_inv. simpl. split; [by apply pool_event_wf|].
    destruct (completion_order_event ev (world c) (job_futures job w0)) as [new Hnew].
    rewrite Hnew. destruct (gen c) as [j|j ac|].
    + destruct Hgen as (-> & -> & Hsub). by rewrite pool_event_submitted.
    + destruct Hgen as (Hfut & Hlen & Hle & Hys).
      rewrite length_app, take_app_le by exact Hle.
      split; [exact Hfut|]. split; [exact Hlen|]. split; [lia|exact Hys].
    + destruct Hgen as [Hle Hys].
      rewrite length_app, take_app_le by exact Hle. split; [lia|exact Hys].
  - destruct c as [w g os]. unfold step. simpl in *.
    destruct g as [j|j ac|]; simpl.
    + destruct Hgen as (-> & -> & Hsub).
      unfold CommonDaskMixin._get_futures.
      destruct (CommonDaskMixin._get_futures_loop (client self) (get_tasks job) [] w)
        as [w1 [futures|e]] eqn:Hget.
      * destruct (get_futures_loop_world _ _ _ _ _ _ Hget) as (pre & _ & -> & Hok).
        destruct (Hok futures eq_refl) as [-> Hfs]. simpl in Hfs.
        assert (Hfut : futures = job_futures job w0).
        { rewrite Hfs. unfold job_futures, new_futures. by rewrite Hsub. }
        pose proof (payload_inv_loop job
          (submit_all (task_submission <$> get_tasks job) w)
          (mkAsCompleted futures 0) []) as H. simpl in H.
        destruct (run_job_loop job _ _) as [[w2 g2] o2]. simpl in H.
        apply H; [by apply submit_all_wf|exact Hfut|reflexivity|lia|reflexivity].
      * destruct (get_futures_loop_world _ _ _ _ _ _ Hget) as (pre & _ & -> & _).
        unfold payload_inv. simpl. split; [by apply submit_all_wf|].
        split; [lia|reflexivity].
    + destruct Hgen as (Hfut & Hlen & Hle & Hys).
      pose proof (payload_inv_loop j w ac os Hwf Hfut Hlen Hle Hys) as H.
      destruct (run_job_loop j ac w) as [[w2 g2] o2]. exact H.
    + unfold payload_inv. simpl. rewrite yields_snoc, app_nil_r.
      split; [exact Hwf|exact Hgen].
Qed.

Lemma payload_inv_run script : forall c,
  payload_inv job w0 c -> payload_inv job w0 (run self script c).
Proof.
  induction script as [|a script IH]; intros c Hinv; [exact Hinv|].
  simpl. apply IH. by apply payload_inv_step.
Qed.

End payloads.

(** X7.  Whatever the pool does (tasks failing or being cancelled
    included), whatever the locations of the tasks and whether or not the
    executor has a client: the blocking [run_job] yields at most one
    result per task of the job, and what it has yielded are, in order,
    the payloads of the first futures of the job that completed. *)
Theorem blocking_run_job_follows_the_log (self : DaskJobExecutor.t) (job : Job)
    (w0 : World) (script : list action) :
  pool_wf w0 ->
  let c := DaskJobExecutor.run self script
             (DaskJobExecutor.mk_config w0 (DaskJobExecutor.run_job self job) []) in
  let ys := yields (DaskJobExecutor.outs c) in
  let order := completion_order (DaskJobExecutor.world c)
                 (new_futures w0 (length (get_tasks job))) in
  length ys <= length (get_tasks job)
  /\ length ys <= length order
  /\ Some <$> ys = payload <$> take (length ys) order.
Proof.
  intros Hwf0 c ys order.
  assert (Hinv : payload_inv job w0 c).
  { apply payload_inv_run. split; [exact Hwf0|]. simpl. auto. }
  destruct Hinv as [Hwf Hgen]. fold (job_futures job w0) in order.
  fold order ys in Hgen.
  pose proof (completion_order_length _ (job_futures job w0) Hwf
                (job_futures_NoDup job w0)) as Hb.
  rewrite job_futures_length in Hb. fold order in Hb.
  destruct (DaskJobExecutor.gen c) as [j|j ac|].
  - destruct Hgen as (_ & Houts & _). subst ys. rewrite Houts. simpl.
    split; [lia|]. split; [lia|reflexivity].
  - destruct Hgen as (_ & Hlen & Hle & Hys). rewrite Hlen.
    split; [lia|]. split; [exact Hle|exact Hys].
  - destruct Hgen as [Hle Hys]. split; [lia|]. split; [exact Hle|exact Hys].
Qed.

Lemma blocking_run_job_follows_the_log_witness :
  let c := DaskJobExecutor.run sync0
             [Next; Env (EvCancel 2); Env (EvFinish 0); Next; Next; Next]
             (DaskJobExecutor.mk_config world0
                (DaskJobExecutor.run_job sync0 job_three) []) in
  let ys := yields (DaskJobExecutor.outs c) in
  ys = [VCancelledError 2; VResult 0]
  /\ length ys <= 3
  /\ Some <$> ys
     = payload <$> take (length ys)
         (completion_order (DaskJobExecutor.world c) [0; 1; 2]).
Proof.
  intros c ys. split; [reflexivity|].
  destruct (blocking_run_job_follows_the_log sync0 job_three world0
              [Next; Env (EvCancel 2); Env (EvFinish 0); Next; Next; Next]
              world0_wf) as (H1 & _ & H3).
  split; [exact H1|exact H3].
Defined.

(** ** [close], [connect] and [make_local] *)

(** X8.  When the teardown of the cluster of a local executor runs into
    its timeout, [close] goes on as if the executor were not local: the
    blocking [close] does what closing the client alone does, the
    asynchronous one what it does on a non-local executor. *)
Theorem close_swallows_teardown_timeout (c : Client) (cl : Cluster)
    (fs : gmap positive (list Future)) (w : World) :
  cluster c = Some cl ->
  cluster_close_raises cl = Some TimeoutError ->
  DaskJobExecutor.close (DaskJobExecutor.mk true (Some c)) w = client_close c w
  /\ AsyncDaskJobExecutor.close (AsyncDaskJobExecutor.mk true (Some c) fs) w
     = AsyncDaskJobExecutor.close (AsyncDaskJobExecutor.mk false (Some c) fs) w.
Proof.
  intros Hcl Htimeout. split.
  - unfold DaskJobExecutor.close, bind, try_except, cluster_close. simpl.
    rewrite Hcl, Htimeout. reflexivity.
  - unfold AsyncDaskJobExecutor.close, bind, try_except, cluster_close,
      client_close. simpl. rewrite Hcl, Htimeout.
    destruct (client_close_raises c); reflexivity.
Qed.

Lemma close_swallows_teardown_timeout_witness :
  let c := mkClient (Some (mkCluster (Some TimeoutError))) None in
  DaskJobExecutor.close (DaskJobExecutor.mk true (Some c)) world0
    = (set_client_closed true world0, Ok tt)
  /\ AsyncDaskJobExecutor.close (AsyncDaskJobExecutor.mk true (Some c) ∅) world0
    = (set_client_closed true world0, Ok tt).
Proof.
  intros c.
  destruct (close_swallows_teardown_timeout c (mkCluster (Some TimeoutError)) ∅ world0)
    as [H1 H2]; [reflexivity|reflexivity|].
  split; [exact H1|exact H2].
Defined.

(** X9.  When the teardown of the cluster raises anything but the
    timeout, the blocking [close] lets it through and never gets to close
    the client: the world is as before.  The asynchronous [close] has
    closed the client by then, logs the exception and returns. *)
Theorem close_on_teardown_error (c : Client) (cl : Cluster) (e : exn)
    (fs : gmap positive (list Future)) (w : World) :
  cluster c = Some cl ->
  cluster_close_raises cl = Some e ->
  e <> TimeoutError ->
  DaskJobExecutor.close (DaskJobExecutor.mk true (Some c)) w = (w, Raise e)
  /\ (client_close_raises c = None ->
      AsyncDaskJobExecutor.close (AsyncDaskJobExecutor.mk true (Some c) fs) w
      = (set_log_records
           (fun l => l ++ [(EXCEPTION, "could not close dask executor"%string)])
           (set_client_closed true w), Ok tt)).
Proof.
  intros Hcl Hraises Hne.
  assert (Hnt : DaskJobExecutor.is_TimeoutError e = false
                /\ AsyncDaskJobExecutor.is_TimeoutError e = false)
    by (destruct e; auto; contradiction).
  destruct Hnt as [Hs Ha]. split.
  - unfold DaskJobExecutor.close, bind, try_except, cluster_close, raise. simpl.
    rewrite Hcl, Hraises, Hs. reflexivity.
  - intros Hclient.
    unfold AsyncDaskJobExecutor.close, bind, try_except, cluster_close,
      client_close, raise. simpl. rewrite Hcl, Hraises, Hclient. simpl.
    rewrite Ha. reflexivity.
Qed.

Lemma close_on_teardown_error_witness :
  let c := mkClient (Some (mkCluster (Some KeyError))) None in
  DaskJobExecutor.close (DaskJobExecutor.mk true (Some c)) world0
    = (world0, Raise KeyError)
  /\ client_closed
       (AsyncDaskJobExecutor.close (AsyncDaskJobExecutor.mk true (Some c) ∅) world0).1
     = true.
Proof.
  intros c.
  destruct (close_on_teardown_error c (mkCluster (Some KeyError)) KeyError ∅ world0)
    as [H1 H2]; [reflexivity|reflexivity|discriminate|].
  split; [exact H1|]. by rewrite (H2 eq_refl).
Defined.

(** X10.  [close] of an executor that is not local, as [connect] makes
    it, never tears the cluster down, whatever cluster the client knows:
    the blocking [close] does what closing the client does, and after
    the asynchronous one the cluster is closed only if it was before. *)
Theorem close_leaves_remote_cluster (c : Client)
    (fs : gmap positive (list Future)) (r : option exn) (w : World) :
  DaskJobExecutor.close (DaskJobExecutor.mk false (Some c)) w = client_close c w
  /\ cluster_closed (client_close c w).1 = cluster_closed w
  /\ cluster_closed
       (AsyncDaskJobExecutor.close (AsyncDaskJobExecutor.mk false (Some c) fs) w).1
     = cluster_closed w
  /\ DaskJobExecutor.is_local (DaskJobExecutor.connect r) = false
  /\ AsyncDaskJobExecutor.is_local (AsyncDaskJobExecutor.connect r) = false.
Proof.
  split; [reflexivity|]. split.
  - unfold client_close. by destruct (client_close_raises c).
  - split; [|auto].
    unfold AsyncDaskJobExecutor.close, try_except, bind, client_close. simpl.
    by destruct (client_close_raises c).
Qed.

(** X11.  The asynchronous [close] never raises, whatever the executor
    and whatever closing the client or the cluster raises; it leaves the
    submissions, the completion log and the cancellation requests of the
    pool alone and logs at most one record. *)
Theorem async_close_is_safe (self : AsyncDaskJobExecutor.t) (w : World) :
  let out := AsyncDaskJobExecutor.close self w in
  out.2 = Ok tt
  /\ submitted out.1 = submitted w
  /\ completed out.1 = completed w
  /\ cancel_requests out.1 = cancel_requests w
  /\ (log_records out.1 = log_records w
      \/ exists r, log_records out.1 = log_records w ++ [r]).
Proof.
  unfold AsyncDaskJobExecutor.close, try_except, bind, client_close,
    cluster_close, log_error, log_exception, modify, raise, ret.
  destruct self as [il [c|] fs]; simpl; [|eauto 10].
  destruct (client_close_raises c); simpl; [eauto 10|].
  destruct il; simpl; [|eauto 10].
  destruct (cluster c) as [cl|]; simpl; [|eauto 10].
  destruct (cluster_close_raises cl) as [e|]; simpl; [|eauto 10].
  destruct e; simpl; eauto 10.
Qed.

(** X12.  When closing the client raises, the asynchronous [close] logs
    the exception and is done: the cluster of a local executor is not
    torn down. *)
Theorem async_close_skips_teardown (il : bool) (c : Client) (e : exn)
    (fs : gmap positive (list Future)) (w : World) :
  client_close_raises c = Some e ->
  AsyncDaskJobExecutor.close (AsyncDaskJobExecutor.mk il (Some c) fs) w
  = (set_log_records
       (fun l => l ++ [(EXCEPTION, "could not close dask executor"%string)]) w,
     Ok tt).
Proof.
  intros He. unfold AsyncDaskJobExecutor.close, try_except, bind, client_close.
  simpl. rewrite He. reflexivity.
Qed.

Lemma async_close_skips_teardown_witness :
  let c := mkClient (Some (mkCluster None)) (Some KeyError) in
  cluster_closed
    (AsyncDaskJobExecutor.close (AsyncDaskJobExecutor.mk true (Some c) ∅) world0).1
  = false.
Proof.
  intros c.
  by rewrite (async_close_skips_teardown true c KeyError ∅ world0 eq_refl).
Defined.

(** X13.  [make_local] followed by [close], with a cluster and a client
    that close without raising: both executors end with the cluster and
    the connection closed and nothing logged; the blocking one closes the
    cluster first, the asynchronous one the client. *)
Theorem make_local_then_close (cl : Cluster) (w : World) :
  cluster_close_raises cl = None ->
  DaskJobExecutor.close (DaskJobExecutor.make_local cl None) w
    = (set_client_closed true (set_cluster_closed true w), Ok tt)
  /\ AsyncDaskJobExecutor.close (AsyncDaskJobExecutor.make_local cl None) w
    = (set_cluster_closed true (set_client_closed true w), Ok tt)
  /\ set_client_closed true (set_cluster_closed true w)
     = set_cluster_closed true (set_client_closed true w).
Proof.
  intros Hcl. split; [|split; [|reflexivity]].
  - unfold DaskJobExecutor.close, DaskJobExecutor.make_local, bind, try_except,
      cluster_close, client_close. simpl. rewrite Hcl. reflexivity.
  - unfold AsyncDaskJobExecutor.close, AsyncDaskJobExecutor.make_local, bind,
      try_except, cluster_close, client_close. simpl. rewrite Hcl. reflexivity.
Qed.

Lemma make_local_then_close_witness :
  DaskJobExecutor.close (DaskJobExecutor.make_local (mkCluster None) None) world0
    = (mkWorld [] [] [] true true [], Ok tt)
  /\ AsyncDaskJobExecutor.close
       (AsyncDaskJobExecutor.make_local (mkCluster None) None) world0
    = (mkWorld [] [] [] true true [], Ok tt).
Proof.
  destruct (make_local_then_close (mkCluster None) world0 eq_refl) as (H1 & H2 & _).
  split; [exact H1|exact H2].
Defined.

(** ** The thread-count scope, in full *)

(** X14.  With a count [n] that numba refuses, [set_num_threads(n)] never
    runs the body: it raises numba's [ValueError] and leaves all three
    thread counts as they were. *)
Theorem set_num_threads_refused (pyfftw : bool) (NUMBA_NUM_THREADS : Z) {A}
    (n : Z) (body : M threading.Threads A) (s : threading.Threads) :
  (1 <= threading.numba_num_threads s <= NUMBA_NUM_THREADS)%Z ->
  ~ (1 <= n <= NUMBA_NUM_THREADS)%Z ->
  threading.set_num_threads pyfftw NUMBA_NUM_THREADS n body s
  = (s, Raise (ValueError "The number of threads must be between 1 and NUMBA_NUM_THREADS")).
Proof.
  intros Hs Hn.
  unfold threading.set_num_threads, threading.threadpool_limits,
    threading.set_fftw_threads.
  destruct pyfftw; unfold bind, get, modify, try_finally; simpl;
    rewrite set_numba_threads_spec by exact Hs;
    rewrite decide_False by exact Hn; simpl; by destruct s.
Qed.

Lemma set_num_threads_refused_witness :
  threading.set_num_threads true 8 0 clobbering_body (threading.mk 4 4 4)
  = (threading.mk 4 4 4,
     Raise (ValueError "The number of threads must be between 1 and NUMBA_NUM_THREADS")).
Proof.
  apply (set_num_threads_refused true 8 0 clobbering_body (threading.mk 4 4 4)).
  - simpl. lia.
  - lia.
Defined.

(** X15.  With a count [n] that numba accepts, the body of
    [set_num_threads(n)] runs once, with the native thread-pool limit,
    numba's count and, when pyfftw is there, pyfftw's count all at [n];
    afterwards the thread-pool limit, too, is what it was before the
    scope, whatever the body did to it. *)
Theorem set_num_threads_state (pyfftw : bool) (NUMBA_NUM_THREADS : Z) {A}
    (n : Z) (body : M threading.Threads A) (s : threading.Threads) :
  (1 <= threading.numba_num_threads s <= NUMBA_NUM_THREADS)%Z ->
  (1 <= n <= NUMBA_NUM_THREADS)%Z ->
  let inner := body (threading.entered pyfftw n s) in
  threading.set_num_threads pyfftw NUMBA_NUM_THREADS n body s
  = (threading.mk (threading.threadpool_limit s)
       (if pyfftw then threading.pyfftw_NUM_THREADS s
        else threading.pyfftw_NUM_THREADS inner.1)
       (threading.numba_num_threads s),
     inner.2).
Proof.
  intros Hs Hn inner. subst inner.
  unfold threading.set_num_threads, threading.threadpool_limits,
    threading.set_fftw_threads, threading.entered.
  destruct pyfftw; unfold bind, get, modify, try_finally; simpl;
    rewrite set_numba_threads_spec by exact Hs;
    rewrite decide_True by exact Hn; simpl;
    destruct (body _) as [s1 r]; reflexivity.
Qed.

Lemma set_num_threads_state_witness :
  threading.set_num_threads true 8 2 clobbering_body (threading.mk 4 5 6)
  = (threading.mk 4 5 6, Raise (TaskFailure "boom")).
Proof.
  apply (set_num_threads_state true 8 2 clobbering_body (threading.mk 4 5 6)).
  - simpl. lia.
  - lia.
Defined.

(** ** [map_partitions] in any pool *)

(** What one [next] on the completion stream adds to the payloads handed
    out so far. *)
Lemma as_completed_next_payload w ac (ys : list value) :
  length ys = ac_taken ac ->
  Some <$> ys = payload <$> take (ac_taken ac) (completion_order w (ac_futures ac)) ->
  match as_completed_next w ac with
  | SNext k v =>
      S (ac_taken ac) <= length (completion_order w (ac_futures ac))
      /\ Some <$> (ys ++ [v])
         = payload <$> take (S (ac_taken ac)) (completion_order w (ac_futures ac))
  | _ => True
  end.
Proof.
  intros Hlen Hys. unfold as_completed_next. case_decide; [exact I|].
  destruct (completion_order w (ac_futures ac) !! ac_taken ac)
    as [[k st]|] eqn:Hk; [|exact I].
  pose proof (lookup_lt_Some _ _ _ Hk) as Hlt.
  destruct st as [v|e|]; [|exact I|];
    (split; [lia|]; by rewrite (take_S_r _ _ _ Hk), !fmap_app, Hys).
Qed.

Section map_partitions_payloads.
Import DaskJobExecutor.

Variable ds : Dataset.
Variable w0 : World.
Variable self : t.

Lemma mp_payload_inv_loop args w ac os :
  pool_wf w -> ac_futures ac = new_futures w0 (length (get_partitions ds)) ->
  length (yields os) = ac_taken ac ->
  ac_taken ac <= length (completion_order w (ac_futures ac)) ->
  Some <$> yields os
    = payload <$> take (ac_taken ac) (completion_order w (ac_futures ac)) ->
  mp_payload_inv ds w0 (let out := map_partitions_loop args ac w in
                        mk_mp_config out.1.1 out.1.2 (os ++ [out.2])).
Proof.
  intros Hwf Hfut Hlen Hle Hys.
  pose proof (as_completed_next_payload w ac (yields os) Hlen Hys) as Hnext.
  unfold map_partitions_loop.
  destruct (as_completed_next w ac) as [k v| |e|]; unfold mp_payload_inv; simpl;
    rewrite yields_snoc, <- ?Hfut, ?app_nil_r; (split; [exact Hwf|]).
  - destruct Hnext as [Hlt Hys']. split; [reflexivity|].
    split; [rewrite length_app; simpl; lia|]. split; [exact Hlt|exact Hys'].
  - split; [lia|]. by rewrite Hlen.
  - split; [lia|]. by rewrite Hlen.
  - auto.
Qed.

Lemma mp_payload_inv_step c a :
  mp_payload_inv ds w0 c -> mp_payload_inv ds w0 (mp_step self c a).
Proof.
  intros [Hwf Hgen]. destruct a as [ev|].
  - unfold mp_payload_inv. simpl. split; [by apply pool_event_wf|].
    destruct (completion_order_event ev (mp_world c)
                (new_futures w0 (length (get_partitions ds)))) as [new Hnew].
    rewrite Hnew. destruct (mp_gen c) as [args|args ac|].
    + destruct Hgen as (-> & -> & Hsub). by rewrite pool_event_submitted.
    + destruct Hgen as (Hfut & Hlen & Hle & Hys).
      rewrite length_app, take_app_le by exact Hle.
      split; [exact Hfut|]. split; [exact Hlen|]. split; [lia|exact Hys].
    + destruct Hgen as [Hle Hys].
      rewrite length_app, take_app_le by exact Hle. split; [lia|exact Hys].
  - destruct c as [w g os]. unfold mp_step. simpl in *.
    destruct g as [args|args ac|]; simpl.
    + destruct Hgen as (Hds & -> & Hsub).
      rewrite Hds.
      destruct (map_partitions_submit_cases (client self) (fn args)
                  match fn_kwargs args with None => [] | Some kw => kw end
                  (get_partitions ds) w) as [[subs ->]|[e ->]].
      * pose proof (mp_payload_inv_loop args (submit_all subs w)
          (mkAsCompleted (new_futures w (length (get_partitions ds))) 0) []) as H.
        simpl in H. destruct (map_partitions_loop args _ _) as [[w2 g2] o2].
        simpl in H. apply H; [by apply submit_all_wf| |reflexivity|lia|reflexivity].
        unfold new_futures. by rewrite Hsub.
      * unfold mp_payload_inv. simpl. split; [exact Hwf|].
        split; [lia|reflexivity].
    + destruct Hgen as (Hfut & Hlen & Hle & Hys).
      rewrite <- Hfut in Hle, Hys.
      pose proof (mp_payload_inv_loop args w ac os Hwf Hfut Hlen Hle Hys) as H.
      destruct (map_partitions_loop args ac w) as [[w2 g2] o2]. exact H.
    + unfold mp_payload_inv. simpl. rewrite yields_snoc, app_nil_r.
      split; [exact Hwf|exact Hgen].
Qed.

Lemma mp_payload_inv_run script : forall c,
  mp_payload_inv ds w0 c -> mp_payload_inv ds w0 (mp_run self script c).
Proof.
  induction script as [|a script IH]; intros c Hinv; [exact Hinv|].
  simpl. apply IH. by apply mp_payload_inv_step.
Qed.

End map_partitions_payloads.

(** X16.  Whatever the pool does, and with or without a client:
    [map_partitions] yields at most one result per partition of the
    dataset, and what it has yielded are, in order, the payloads of the
    first futures of its partitions that completed. *)
Theorem map_partitions_follows_the_log (self : DaskJobExecutor.t) (ds : Dataset)
    (fn : Partition -> kwargs -> res value) (fn_kwargs : option kwargs)
    (w0 : World) (script : list action) :
  pool_wf w0 ->
  let c := DaskJobExecutor.mp_run self script
             (DaskJobExecutor.mk_mp_config w0
                (DaskJobExecutor.map_partitions self ds fn fn_kwargs) []) in
  let ys := yields (DaskJobExecutor.mp_outs c) in
  let order := completion_order (DaskJobExecutor.mp_world c)
                 (new_futures w0 (length (get_partitions ds))) in
  length ys <= length (get_partitions ds)
  /\ length ys <= length order
  /\ Some <$> ys = payload <$> take (length ys) order.
Proof.
  intros Hwf0 c ys order.
  assert (Hinv : mp_payload_inv ds w0 c).
  { apply mp_payload_inv_run. split; [exact Hwf0|]. simpl. auto. }
  destruct Hinv as [Hwf Hgen]. fold order ys in Hgen.
  pose proof (completion_order_length _
                (new_futures w0 (length (get_partitions ds))) Hwf
                (NoDup_seq _ _)) as Hb.
  fold order in Hb. unfold new_futures in Hb. rewrite length_seq in Hb.
  destruct (DaskJobExecutor.mp_gen c) as [args|args ac|].
  - destruct Hgen as (_ & Houts & _). subst ys. rewrite Houts. simpl.
    split; [lia|]. split; [lia|reflexivity].
  - destruct Hgen as (_ & Hlen & Hle & Hys). rewrite Hlen.
    split; [lia|]. split; [exact Hle|exact Hys].
  - destruct Hgen as [Hle Hys]. split; [lia|]. split; [exact Hle|exact Hys].
Qed.

Lemma map_partitions_follows_the_log_witness :
  let c := DaskJobExecutor.mp_run sync0
             [Next; Env (EvFinish 1); Next; Env (EvFinish 0); Next; Next]
             (DaskJobExecutor.mk_mp_config world0
                (DaskJobExecutor.map_partitions sync0 dataset_nowhere fn_index None) []) in
  DaskJobExecutor.mp_outs c
    = [Waiting; Yield (VResult 1); Yield (VResult 0); StopIteration]
  /\ length (yields (DaskJobExecutor.mp_outs c)) <= 2.
Proof.
  intros c. split; [reflexivity|].
  destruct (map_partitions_follows_the_log sync0 dataset_nowhere fn_index None
              world0 [Next; Env (EvFinish 1); Next; Env (EvFinish 0); Next; Next]
              world0_wf) as (H1 & _ & _).
  exact H1.
Defined.

(** ** The asynchronous [run_job] in any pool *)

Lemma cancel_job_completed self job w :
  completed (AsyncDaskJobExecutor.cancel_job self job w).1 = completed w.
Proof.
  unfold AsyncDaskJobExecutor.cancel_job, client_cancel.
  destruct (_ !! _); [|reflexivity].
  by destruct (AsyncDaskJobExecutor.client self).
Qed.

(** A value the asynchronous loop yields is the value of a finished
    future. *)
Lemma as_completed_next_finished w ac k v :
  as_completed_next w ac = SNext k v ->
  future_cancelled w k = false ->
  completion_order w (ac_futures ac) !! ac_taken ac = Some (k, Finished v).
Proof.
  unfold as_completed_next. case_decide; [discriminate|].
  destruct (completion_order w (ac_futures ac) !! ac_taken ac)
    as [[k' st]|] eqn:Hk; [|discriminate].
  destruct st as [v'|e|]; [by intros [= -> ->]|discriminate|].
  intros [= -> <-] Hnc.
  by rewrite (completion_order_cancelled _ _ _ _ Hk) in Hnc.
Qed.

Section finished_results.
Import AsyncDaskJobExecutor.

Variable job : Job.
Variable w0 : World.

Lemma finished_inv_loop s j w ac os :
  pool_wf w -> ac_futures ac = job_futures job w0 ->
  length (yields os) = ac_taken ac ->
  ac_taken ac <= length (completion_order w (job_futures job w0)) ->
  Finished <$> yields os
    = (take (ac_taken ac) (completion_order w (job_futures job w0))).*2 ->
  finished_inv job w0 (let out := run_job_loop s j ac w in
                       mk_config out.1.1.1 out.1.1.2 out.1.2 (os ++ [out.2])).
Proof.
  intros Hwf Hfut Hlen Hle Hys. unfold run_job_loop.
  destruct (as_completed_next w ac) as [k v| | |] eqn:Hnext.
  - destruct (future_cancelled w k) eqn:Hc; unfold finished_inv; simpl;
      rewrite yields_snoc; (split; [exact Hwf|]).
    + rewrite app_nil_r. split; [lia|]. by rewrite Hlen.
    + pose proof (as_completed_next_finished _ _ _ _ Hnext Hc) as Hk.
      rewrite Hfut in Hk. pose proof (lookup_lt_Some _ _ _ Hk) as Hlt.
      split; [exact Hfut|]. split; [rewrite length_app; simpl; lia|].
      split; [lia|]. by rewrite (take_S_r _ _ _ Hk), !fmap_app, Hys.
  - destruct (_futures s !! job_id j); unfold finished_inv; simpl;
      rewrite yields_snoc, app_nil_r; (split; [exact Hwf|]);
      (split; [lia|]); by rewrite Hlen.
  - unfold finished_inv. simpl. rewrite yields_snoc, app_nil_r.
    split; [exact Hwf|]. split; [lia|]. by rewrite Hlen.
  - unfold finished_inv. simpl. rewrite yields_snoc, app_nil_r.
    split; [exact Hwf|]. auto.
Qed.

Lemma finished_inv_step c a : finished_inv job w0 c -> finished_inv job w0 (step c a).
Proof.
  intros [Hwf Hgen]. destruct a as [[ev|]|j].
  - unfold finished_inv. simpl. split; [by apply pool_event_wf|].
    destruct (completion_order_event ev (world c) (job_futures job w0)) as [new Hnew].
    rewrite Hnew. destruct (gen c) as [j|j ac|].
    + destruct Hgen as (-> & -> & Hsub). by rewrite pool_event_submitted.
    + destruct Hgen as (Hfut & Hlen & Hle & Hys).
      rewrite length_app, take_app_le by exact Hle.
      split; [exact Hfut|]. split; [exact Hlen|]. split; [lia|exact Hys].
    + destruct Hgen as [Hle Hys].
      rewrite length_app, take_app_le by exact Hle. split; [lia|exact Hys].
  - destruct c as [s w g os]. unfold step. simpl in *.
    destruct g as [j|j ac|]; simpl.
    + destruct Hgen as (-> & -> & Hsub).
      unfold CommonDaskMixin._get_futures.
      destruct (CommonDaskMixin._get_futures_loop (client s) (get_tasks job) [] w)
        as [w1 [futures|e]] eqn:Hget.
      * destruct (get_futures_loop_world _ _ _ _ _ _ Hget) as (pre & _ & -> & Hok).
        destruct (Hok futures eq_refl) as [-> Hfs]. simpl in Hfs.
        assert (Hfut : futures = job_futures job w0).
        { rewrite Hfs. unfold job_futures, new_futures. by rewrite Hsub. }
        pose proof (finished_inv_loop
          (set_futures (insert (job_id job) futures) s) job
          (submit_all (task_submission <$> get_tasks job) w)
          (mkAsCompleted futures 0) []) as H. simpl in H.
        destruct (run_job_loop _ job _ _) as [[[s2 w2] g2] o2]. simpl in H.
        apply H; [by apply submit_all_wf|exact Hfut|reflexivity|lia|reflexivity].
      * destruct (get_futures_loop_world _ _ _ _ _ _ Hget) as (pre & _ & -> & _).
        unfold finished_inv. simpl. split; [by apply submit_all_wf|].
        split; [lia|reflexivity].
    + destruct Hgen as (Hfut & Hlen & Hle & Hys).
      pose proof (finished_inv_loop s j w ac os Hwf Hfut Hlen Hle Hys) as H.
      destruct (run_job_loop s j ac w) as [[[s2 w2] g2] o2]. exact H.
    + unfold finished_inv. simpl. rewrite yields_snoc, app_nil_r.
      split; [exact Hwf|exact Hgen].
  - unfold finished_inv, completion_order, pool_wf in *. simpl.
    rewrite cancel_job_completed, cancel_job_submitted.
    split; [exact Hwf|]. destruct (gen c); exact Hgen.
Qed.

Lemma finished_inv_run script : forall c,
  finished_inv job w0 c -> finished_inv job w0 (run script c).
Proof.
  induction script as [|a script IH]; intros c Hinv; [exact Hinv|].
  simpl. apply IH. by apply finished_inv_step.
Qed.

End finished_results.

(** X17.  Whatever the pool does and whenever [cancel_job] is called: the
    asynchronous [run_job] yields at most one result per task of the job,
    and what it has yielded are, in order, the values of the first
    futures of the job that completed, all of which finished; it never
    yields anything for a future that was cancelled or that failed. *)
Theorem async_run_job_yields_finished_results
    (self : AsyncDaskJobExecutor.t) (job : Job) (w0 : World)
    (script : list AsyncDaskJobExecutor.async_action) :
  pool_wf w0 ->
  let c := AsyncDaskJobExecutor.run script
             (AsyncDaskJobExecutor.mk_config self w0
                (AsyncDaskJobExecutor.run_job self job) []) in
  let ys := yields (AsyncDaskJobExecutor.outs c) in
  let order := completion_order (AsyncDaskJobExecutor.world c)
                 (new_futures w0 (length (get_tasks job))) in
  length ys <= length (get_tasks job)
  /\ length ys <= length order
  /\ Finished <$> ys = (take (length ys) order).*2.
Proof.
  intros Hwf0 c ys order.
  assert (Hinv : finished_inv job w0 c).
  { apply finished_inv_run. split; [exact Hwf0|]. simpl. auto. }
  destruct Hinv as [Hwf Hgen]. fold (job_futures job w0) in order.
  fold order ys in Hgen.
  pose proof (completion_order_length _ (job_futures job w0) Hwf
                (job_futures_NoDup job w0)) as Hb.
  rewrite job_futures_length in Hb. fold order in Hb.
  destruct (AsyncDaskJobExecutor.gen c) as [j|j ac|].
  - destruct Hgen as (_ & Houts & _). subst ys. rewrite Houts. simpl.
    split; [lia|]. split; [lia|reflexivity].
  - destruct Hgen as (_ & Hlen & Hle & Hys). rewrite Hlen.
    split; [lia|]. split; [exact Hle|exact Hys].
  - destruct Hgen as [Hle Hys]. split; [lia|]. split; [exact Hle|exact Hys].
Qed.

Lemma async_run_job_yields_finished_results_witness :
  let c := AsyncDaskJobExecutor.run
             [AsyncDaskJobExecutor.Act Next;
              AsyncDaskJobExecutor.Act (Env (EvFinish 1));
              AsyncDaskJobExecutor.Act (Env (EvCancel 2));
              AsyncDaskJobExecutor.Act Next;
              AsyncDaskJobExecutor.Act Next;
              AsyncDaskJobExecutor.Act Next]
             (AsyncDaskJobExecutor.mk_config async0 world0
                (AsyncDaskJobExecutor.run_job async0 job_three) []) in
  AsyncDaskJobExecutor.outs c
    = [Waiting; Yield (VResult 1); Raised JobCancelledError; StopIteration]
  /\ length (yields (AsyncDaskJobExecutor.outs c)) <= 3.
Proof.
  intros c. split; [reflexivity|].
  destruct (async_run_job_yields_finished_results async0 job_three world0
              [AsyncDaskJobExecutor.Act Next;
               AsyncDaskJobExecutor.Act (Env (EvFinish 1));
               AsyncDaskJobExecutor.Act (Env (EvCancel 2));
               AsyncDaskJobExecutor.Act Next;
               AsyncDaskJobExecutor.Act Next;
               AsyncDaskJobExecutor.Act Next]
              world0_wf) as (H1 & _ & _).
  exact H1.
Defined.

(** ** The holography UDF *)

(** An output shape with a zero stops [get_task_data] at its first
    division. *)
Lemma slice_fft_zero_shape (sig out_shape : N * N) :
  out_shape.1 = 0%N \/ out_shape.2 = 0%N ->
  holography.slice_fft sig out_shape = holography.Raises holography.ZeroDivisionError.
Proof.
  destruct sig as [sy sx], out_shape as [oy ox]. simpl.
  unfold holography.slice_fft, holography.reciprocal. simpl.
  intros [-> | ->]; simpl; [reflexivity|].
  by destruct (Z.of_N oy =? 0)%Z.
Qed.

(** X18.  For a frame of [sy] by [sx] pixels and an output shape
    [(oy, ox)] without a zero that fits into it, [get_task_data] returns,
    and its slice selects exactly [oy] rows; its column bound is computed
    from [oy], so it selects [min((sx + oy) div 2, sx) - (sx - ox) div 2]
    columns, which is [ox] when the output shape is square. *)
Theorem slice_fft_selects (sy sx oy ox : N) :
  (0 < oy <= sy)%N -> (0 < ox <= sx)%N ->
  (sy < 2 ^ 52)%N -> (sx < 2 ^ 52)%N ->
  exists s,
    holography.slice_fft (sy, sx) (oy, ox) = holography.Returns s
    /\ holography.slice_len (Z.of_N sy) s.1 = Z.of_N oy
    /\ holography.slice_len (Z.of_N sx) s.2
       = (Z.min ((Z.of_N sx + Z.of_N oy) / 2) (Z.of_N sx)
          - (Z.of_N sx - Z.of_N ox) / 2)%Z
    /\ (oy = ox -> holography.slice_len (Z.of_N sx) s.2 = Z.of_N ox).
Proof.
  intros Hy Hx _ _.
  unfold holography.slice_fft, holography.reciprocal. simpl.
  destruct (Z.eqb_spec (Z.of_N oy) 0) as [Hoy|_]; [lia|].
  destruct (Z.eqb_spec (Z.of_N ox) 0) as [Hox|_]; [lia|].
  simpl. eexists. split; [reflexivity|].
  assert (Hy' : (0 < Z.of_N oy <= Z.of_N sy)%Z) by lia.
  assert (Hx' : (0 < Z.of_N ox <= Z.of_N sx)%Z) by lia.
  assert (Hsq : oy = ox -> Z.of_N oy = Z.of_N ox) by (by intros ->).
  generalize dependent (Z.of_N sy). generalize dependent (Z.of_N sx).
  generalize dependent (Z.of_N oy). generalize dependent (Z.of_N ox).
  intros zox zoy Hsq zsx Hx' zsy Hy'.
  unfold holography.int, holography.true_div. simpl.
  change (Z.pos (1 * 2 * (1 * 2))) with 4%Z. change (Z.pos (1 * 2)) with 2%Z.
  rewrite !Z.quot_div_nonneg by lia.
  assert (Hhalf : forall a b : Z, ((a * 1 * 2 + b * 2) / 4 = (a + b) / 2)%Z).
  { intros a b. replace (a * 1 * 2 + b * 2)%Z with (2 * (a + b))%Z by lia.
    change 4%Z with (2 * 2)%Z. apply Z.div_mul_cancel_l; lia. }
  rewrite !Hhalf.
  unfold holography.slice_len, holography.clip_index. simpl.
  split; [|split; [|intros Heq; apply Hsq in Heq]];
  repeat match goal with
         | |- context [(?a <? 0)%Z] => destruct (Z.ltb_spec a 0)
         end; Z.div_mod_to_equations; lia.
Qed.

Lemma slice_fft_selects_witness :
  holography.slice_fft (8, 8)%N (2, 4)%N
    = holography.Returns ((3, 5), (2, 5))%Z
  /\ holography.slice_len 8 (3, 5)%Z = 2%Z
  /\ holography.slice_len 8 (2, 5)%Z = 3%Z.
Proof.
  destruct (slice_fft_selects 8 8 2 4) as (s & Hs & H1 & H2 & _); try lia.
  assert (Heq : s = ((3, 5), (2, 5))%Z) by (vm_compute in Hs; congruence).
  subst s. split; [reflexivity|]. split; [exact H1|exact H2].
Defined.

Section phase_ramp.
Import holography.

Variable F : Type.
Variable zero : F.
Variable mul : F -> Z -> F.
Variable add : F -> F -> F.
Variable Img : Type.
Variable mean_gradient : Img -> nat -> hres F.
Variable as_image : nat * nat -> Img.

Lemma ramp_image_lookup (ramp_y ramp_x : F) (n m i j : nat) :
  i < m -> j < n ->
  exists row,
    array_add F add (scale F mul ramp_x (meshgrid (arange n) (arange m)).2)
                    (scale F mul ramp_y (meshgrid (arange n) (arange m)).1) !! i
    = Some row
    /\ length row = n
    /\ row !! j = Some (add (mul ramp_x (Z.of_nat i)) (mul ramp_y (Z.of_nat j))).
Proof.
  intros Hi Hj. unfold array_add, scale, meshgrid, arange. simpl.
  rewrite lookup_zip_with, !list_lookup_fmap, lookup_seq_lt by exact Hi. simpl.
  eexists. split; [reflexivity|]. split.
  - rewrite length_zip_with, !length_fmap, length_seq. lia.
  - rewrite lookup_zip_with, !list_lookup_fmap, lookup_seq_lt by exact Hj.
    reflexivity.
Qed.

End phase_ramp.

(** X19.  With a ramp passed in and order 1, [phase_ramp_removal(size,
    ...)] returns an array of [size[1]] rows and [size[0]] columns, the
    transpose of the shape [size], with
    [ramp_x * i + ramp_y * j] at row [i] and column [j]; for any other
    order it ignores the ramp and returns the zero array of shape
    [size]. *)
Theorem phase_ramp_removal_with_ramp (F : Type) (zero : F) (mul : F -> Z -> F)
    (add : F -> F -> F) (Img : Type)
    (mean_gradient : Img -> nat -> holography.hres F)
    (as_image : nat * nat -> Img) (size : nat * nat) (ramp_y ramp_x : F) :
  let removal := holography.phase_ramp_removal F zero mul add Img mean_gradient
                   as_image size in
  (exists img,
     removal 1%Z (Some (ramp_y, ramp_x)) = holography.Returns img
     /\ length img = size.2
     /\ (forall i j, i < size.2 -> j < size.1 ->
           exists row, img !! i = Some row /\ length row = size.1
                       /\ row !! j = Some (add (mul ramp_x (Z.of_nat i))
                                               (mul ramp_y (Z.of_nat j)))))
  /\ (forall order, order <> 1%Z ->
        removal order (Some (ramp_y, ramp_x))
        = holography.Returns (replicate size.1 (replicate size.2 zero))).
Proof.
  intros removal. subst removal. split.
  - eexists. split; [reflexivity|]. split.
    + unfold holography.array_add, holography.scale, holography.meshgrid,
        holography.arange. simpl.
      rewrite length_zip_with, !length_fmap, length_seq. lia.
    + intros i j Hi Hj. by apply ramp_image_lookup.
  - intros order Horder. unfold holography.phase_ramp_removal. simpl.
    destruct (Z.eqb_spec order 1); [contradiction|reflexivity].
Qed.

(** X20.  Without a ramp, [phase_ramp_removal] with order 1 never
    returns: whatever numpy computes on the size tuple, the call raises,
    and when numpy returns on both axes it is the [UnboundLocalError] of
    the local [ramp_x] that was never assigned.  [phase_ramp_finding]
    itself raises the [UnboundLocalError] of its local [ramp] for every
    order other than 1. *)
Theorem phase_ramp_removal_without_ramp (F : Type) (zero : F) (mul : F -> Z -> F)
    (add : F -> F -> F) (Img : Type)
    (mean_gradient : Img -> nat -> holography.hres F)
    (as_image : nat * nat -> Img) (size : nat * nat) :
  let removal := holography.phase_ramp_removal F zero mul add Img mean_gradient
                   as_image size in
  (exists e, removal 1%Z None = holography.Raises e)
  /\ ((forall axis, exists r,
         mean_gradient (as_image size) axis = holography.Returns r) ->
      removal 1%Z None
      = holography.Raises (holography.UnboundLocalError "ramp_x"))
  /\ (forall img order, order <> 1%Z ->
        holography.phase_ramp_finding F Img mean_gradient img order
        = holography.Raises (holography.UnboundLocalError "ramp")).
Proof.
  intros removal. subst removal.
  unfold holography.phase_ramp_removal, holography.phase_ramp_finding,
    holography.hbind. simpl.
  split; [|split].
  - destruct (mean_gradient (as_image size) 0); [|by eexists].
    destruct (mean_gradient (as_image size) 1); by eexists.
  - intros Hret. destruct (Hret 0) as [r0 ->]. by destruct (Hret 1) as [r1 ->].
  - intros img order Horder.
    destruct (Z.eqb_spec order 1); [contradiction|reflexivity].
Qed.
